(** * Guitar Pro markers to Ableton locators: a shallow embedding of [main.py]

    The development follows the Python source function by function:
    - Python values the script manipulates ([str], [int], [None], [bytes],
      [xml.etree.ElementTree.Element]) are given Rocq counterparts; the
      conversions between [int] and [str] are those of the interpreter, with
      its limit on the number of digits, and [int()] is given on ASCII
      strings;
    - exceptions are values of [py_exception], and a function that can raise
      returns in [Result] (no state) or in [Py S] (state [S] threaded, the
      state at the point of the [raise] is kept);
    - the project tree that [add_markers_to_ableton_project] mutates in place
      is the state of [Py Element]; a Python reference to a node of that tree
      is a [handle], the list of child positions leading to the node;
    - the file system touched by the two project-file functions is a finite
      map from paths to file contents, with a log of the performed effects. *)

From Stdlib Require Import ZArith String Ascii List Strings.Byte DecimalString DecimalZ Lia.
From stdpp Require Import base option list strings gmap.

Set Warnings "-register-all".
Open Scope Z_scope.

(** ** Exceptions and the two monads *)

Inductive py_exception : Type :=
| Exception (msg : string)
| FileNotFoundError (msg : string)
| AttributeError
| IndexError
| TypeError
| ValueError
| OSError (msg : string).

Definition Result (A : Type) : Type := py_exception + A.

#[global] Instance result_ret : MRet Result := λ A a, inr a.
#[global] Instance result_bind : MBind Result :=
  λ A B k m, match m with inl e => inl e | inr a => k a end.
#[global] Instance result_fmap : FMap Result :=
  λ A B f m, match m with inl e => inl e | inr a => inr (f a) end.

Definition Py (S A : Type) : Type := S → S * Result A.

#[global] Instance py_ret {S} : MRet (Py S) := λ A a s, (s, inr a).
#[global] Instance py_bind {S} : MBind (Py S) :=
  λ A B k m s, match m s with
               | (s', inl e) => (s', inl e)
               | (s', inr a) => k a s'
               end.

Definition raise {S A} (e : py_exception) : Py S A := λ s, (s, inl e).
Definition lift {S A} (r : Result A) : Py S A := λ s, (s, r).
Definition get_state {S} : Py S S := λ s, (s, inr s).
Definition modify_state {S} (f : S → S) : Py S unit := λ s, (f s, inr tt).

(** ** Python strings and integers *)

(** [s.endswith(suffix)] *)
Fixpoint endswith (s suffix : string) : bool :=
  String.eqb s suffix ||
  match s with
  | EmptyString => false
  | String _ s' => endswith s' suffix
  end.

(** [s.replace(old, new)] for a non-empty [old]: the occurrences are taken
    from left to right and do not overlap.  [skip] counts the characters of
    the occurrence in progress that are still to be dropped. *)
Fixpoint replace_from (old new : string) (skip : nat) (s : string) : string :=
  match s with
  | EmptyString => EmptyString
  | String c s' =>
      match skip with
      | S k => replace_from old new k s'
      | O =>
          if String.prefix old s
          then new +:+ replace_from old new (String.length old - 1) s'
          else String c (replace_from old new O s')
      end
  end.

Definition replace (s old new : string) : string := replace_from old new O s.

(** The decimal numeral of [n], with a minus sign for a negative [n]. *)
Definition str_of_int (n : Z) : string := NilZero.string_of_int (Z.to_int n).

(** The interpreter's limit on the number of digits of a decimal numeral in
    a conversion between [int] and [str]
    ([sys.int_info.default_max_str_digits], the value in force unless the
    interpreter is started with another one). *)
Definition int_max_str_digits : nat := 4300.

(** [f"{n}"] and ["{}".format(n)] for an [int], which are [str(n)]: the
    numeral of [n], or [ValueError] when the numeral has more than
    [int_max_str_digits] digits, that is, when the absolute value of [n] is
    [10 ^ int_max_str_digits] or more. *)
Definition format_int (n : Z) : Result string :=
  if Z.abs n <? 10 ^ Z.of_nat int_max_str_digits
  then inr (str_of_int n)
  else inl ValueError.

(** ["{}".format(v)] for a value that is a [str] or [None]. *)
Definition format_value (v : option string) : string :=
  match v with
  | Some s => s
  | None => "None"
  end.

(** The characters [int()] strips around the numeral of an ASCII string:
    tab, line feed, vertical tab, form feed, carriage return and space (the
    C [isspace]; the separators 28 to 31, which [str.isspace] accepts, are
    not among them). *)
Definition is_space (c : ascii) : bool :=
  let n := nat_of_ascii c in
  ((9 <=? n) && (n <=? 13) || (n =? 32))%nat.

Definition digit_of (c : ascii) : option Z :=
  let n := nat_of_ascii c in
  if ((48 <=? n) && (n <=? 57))%nat then Some (Z.of_nat n - 48) else None.

(** Decimal digits, a single underscore allowed between two digits.
    [after_digit] tells whether the previous character was a digit. *)
Fixpoint digits_value (acc : Z) (after_digit : bool) (cs : list ascii) : option Z :=
  match cs with
  | [] => if after_digit then Some acc else None
  | c :: cs' =>
      match digit_of c with
      | Some d => digits_value (10 * acc + d) true cs'
      | None =>
          if Ascii.eqb c "_" && after_digit
          then digits_value acc false cs'
          else None
      end
  end.

Definition signed_value (cs : list ascii) : option Z :=
  match cs with
  | "-"%char :: cs' => Z.opp <$> digits_value 0 false cs'
  | "+"%char :: cs' => digits_value 0 false cs'
  | _ => digits_value 0 false cs
  end.

Fixpoint lstrip (cs : list ascii) : list ascii :=
  match cs with
  | c :: cs' => if is_space c then lstrip cs' else cs
  | [] => []
  end.

Definition strip (cs : list ascii) : list ascii :=
  reverse (lstrip (reverse (lstrip cs))).

(** The number of digits of a numeral: every digit counts, a leading zero
    too; signs and underscores do not. *)
Definition digit_count (cs : list ascii) : nat :=
  length (filter (λ c, is_Some (digit_of c)) cs).

(** A string of ASCII characters.  On a string with other characters
    [int()] goes by the Unicode properties of the characters (it accepts the
    decimal digits and the spaces of every script), which the characters of
    [string] do not carry: the statements on what [int()] rejects are on
    ASCII strings. *)
Definition is_ascii (s : string) : Prop :=
  Forall (λ c, (nat_of_ascii c < 128)%nat) (list_ascii_of_string s).

(** [int(v)] for a value that is [None] or an ASCII [str]: [TypeError] for
    [None]; for a string, [ValueError] unless it is a decimal numeral,
    possibly signed and surrounded by spaces, of at most
    [int_max_str_digits] digits. *)
Definition py_int (v : option string) : Result Z :=
  match v with
  | None => inl TypeError
  | Some s =>
      let cs := strip (list_ascii_of_string s) in
      match signed_value cs with
      | Some n =>
          if (digit_count cs <=? int_max_str_digits)%nat
          then inr n
          else inl ValueError
      | None => inl ValueError
      end
  end.

(** [binascii.hexlify] *)
Definition hex_digit (n : N) : ascii :=
  ascii_of_N (if (n <? 10)%N then 48 + n else 87 + n)%N.

Fixpoint hexlify (bs : list byte) : string :=
  match bs with
  | [] => EmptyString
  | b :: bs' =>
      let n := Byte.to_N b in
      String (hex_digit (n / 16)) (String (hex_digit (n mod 16)) (hexlify bs'))
  end.

(** ** ElementTree *)

(** An [Element]: tag, attribute dictionary, text and the ordered children.
    The [tail] of an element is not represented: the script never reads or
    writes it. *)
Inductive Element : Type :=
  Elem { tag : string;
         attrib : list (string * string);
         text : option string;
         children : list Element }.

Definition set_children (e : Element) (cs : list Element) : Element :=
  Elem (tag e) (attrib e) (text e) cs.

(** [ET.Element(tag, **extra)] *)
Definition new_Element (t : string) (extra : list (string * string)) : Element :=
  Elem t extra None [].

(** [e.get(key)] *)
Fixpoint get (key : string) (attrs : list (string * string)) : option string :=
  match attrs with
  | [] => None
  | (k, v) :: attrs' => if String.eqb k key then Some v else get key attrs'
  end.

Definition has_tag (t : string) (e : Element) : Prop := tag e = t.

#[global] Instance has_tag_dec t e : Decision (has_tag t e).
Proof. unfold has_tag. apply _. Defined.

(** [e.find(t)] for a plain tag [t]: the first child with that tag, or
    [None]. *)
Definition find (t : string) (e : Element) : option Element :=
  snd <$> list_find (has_tag t) (children e).

(** [e.findall(t)]: the children with that tag, in document order. *)
Definition findall (t : string) (e : Element) : list Element :=
  filter (has_tag t) (children e).

(** Truth value of an expression that is an [Element] or [None]:
    [Element.__bool__] is [len(self) != 0], so an element without children
    is false, like [None]. *)
Definition truth (o : option Element) : bool :=
  match o with
  | Some e => negb (bool_decide (children e = []))
  | None => false
  end.

(** Attribute access or method call on a value that may be [None]. *)
Definition deref {A} (o : option A) : Result A :=
  match o with
  | Some a => inr a
  | None => inl AttributeError
  end.

(** ** Marker Extractor: [extract_marker_from_gp_xml] *)

(** One dictionary [{"bar": ..., "marker": ...}] of the marker list.  Both
    values come straight from the tree: an attribute value or [None], a text
    or [None]. *)
Record MarkerRecord : Type := Marker { bar : option string; marker : option string }.

(** The comprehension of lines 66-69 for one measure: for each direction the
    condition [direction.find("direction-type").findall("rehearsal")] is
    evaluated, and where it is a non-empty list the element
    [direction.find("direction-type").find("rehearsal")] is produced. *)
Definition rehearsals_of_measure (measure : Element) : Result (list (option Element)) :=
  @concat _ <$> mapM (λ direction,
    direction_type ← deref (find "direction-type" direction);
    match findall "rehearsal" direction_type with
    | [] => mret []
    | _ :: _ =>
        direction_type ← deref (find "direction-type" direction);
        mret [find "rehearsal" direction_type]
    end) (findall "direction" measure).

(** The body of the outer loop (line 71) for one measure. *)
Definition markers_of_measure (measure : Element) : Result (list MarkerRecord) :=
  rehearsals ← rehearsals_of_measure measure;
  mapM (λ rehearsal,
    rehearsal ← deref rehearsal;
    mret (Marker (get "number" (attrib measure)) (text rehearsal))) rehearsals.

(** Lines 63-72, on the parsed tree. *)
Definition markers_of_tree (tree : Element) : Result (list MarkerRecord) :=
  part ← deref (find "part" tree);
  let measures := findall "measure" part in
  @concat _ <$> mapM markers_of_measure
    (filter (λ measure, truth (find "direction" measure) = true) measures).

(** ** The project tree as a mutable store *)

(** A reference to a node of the tree: the positions to follow from the
    root.  The [ElementTree] object itself is the handle [[]] of its root
    element, to which [tree.find] delegates. *)
Definition handle : Type := list nat.

Fixpoint node_at (h : handle) (root : Element) : option Element :=
  match h with
  | [] => Some root
  | i :: h' => children root !! i ≫= node_at h'
  end.

Fixpoint alter_at (f : Element → Element) (h : handle) (root : Element) : Element :=
  match h with
  | [] => f root
  | i :: h' => set_children root (alter (alter_at f h') i (children root))
  end.

Definition children_at (h : handle) (root : Element) : list Element :=
  from_option children [] (node_at h root).

Definition on_children (f : list Element → list Element) (e : Element) : Element :=
  set_children e (f (children e)).

Definition alter_children (f : list Element → list Element) (h : handle) : Py Element unit :=
  modify_state (alter_at (on_children f) h).

(** [parent.find(t)], [parent] being a reference or [None]; the result is a
    reference to the first child with tag [t], or [None]. *)
Definition find_in (parent : option handle) (t : string) : Py Element (option handle) :=
  parent ← lift (deref parent);
  root ← get_state;
  mret ((λ found, parent ++ [found.1]) <$> list_find (has_tag t) (children_at parent root)).

(** The truth value of a reference or [None] in a condition. *)
Definition truth_of (o : option handle) : Py Element bool :=
  root ← get_state;
  mret (truth (o ≫= λ h, node_at h root)).

(** [parent.remove(child)]: the child is looked up by identity. *)
Definition remove_child (parent child : option handle) : Py Element unit :=
  parent ← lift (deref parent);
  match child with
  | None => raise TypeError
  | Some c =>
      match last c with
      | Some i =>
          if decide (c = parent ++ [i])
          then alter_children (delete i) parent
          else raise ValueError
      | None => raise ValueError
      end
  end.

(** The positions [i] of [cs], counted from [start], at which the tag is
    [t]. *)
Fixpoint positions_from (t : string) (start : nat) (cs : list Element) : list nat :=
  match cs with
  | [] => []
  | c :: cs' =>
      if decide (has_tag t c)
      then start :: positions_from t (S start) cs'
      else positions_from t (S start) cs'
  end.

(** [[position for position in range(len(parent)) if parent[position].tag == t]] *)
Definition positions_with_tag (parent : option handle) (t : string) : Py Element (list nat) :=
  match parent with
  | None => raise TypeError
  | Some p => root ← get_state; mret (positions_from t 0 (children_at p root))
  end.

(** [l[0]] *)
Definition first_item {A} (l : list A) : Result A :=
  match l with
  | [] => inl IndexError
  | x :: _ => inr x
  end.

(** [parent.insert(position, e)] *)
Definition insert_child (parent : option handle) (position : nat) (e : Element)
  : Py Element unit :=
  parent ← lift (deref parent);
  alter_children (λ cs, take position cs ++ e :: drop position cs) parent.

(** [ET.SubElement(parent, t, **extra)]: a new element appended to the
    children of [parent]; the result is the reference to it. *)
Definition SubElement (parent : option handle) (t : string)
    (extra : list (string * string)) : Py Element handle :=
  match parent with
  | None => raise TypeError
  | Some p =>
      root ← get_state;
      alter_children (λ cs, cs ++ [new_Element t extra]) p;;
      mret (p ++ [length (children_at p root)])
  end.

(** ** Locator Splicer: [add_markers_to_ableton_project] *)

(** The loop of lines 102-109; [locator_id] is the counter on entry.  The
    arguments of a call are evaluated before the call: the identifier is
    formatted before the [Locator] element is made, and the bar is converted
    and the time formatted before the [Time] element is made. *)
Fixpoint add_locators (locators_element_2 : handle) (locator_id : Z)
    (gp_markers_dict : list MarkerRecord) : Py Element unit :=
  match gp_markers_dict with
  | [] => mret tt
  | marker_ :: rest =>
      let locator_id := locator_id + 1 in
      id_text ← lift (format_int locator_id);
      locator ← SubElement (Some locators_element_2) "Locator" [("Id", id_text)];
      SubElement (Some locator) "LomId" [("Value", "0")];;
      bar_number ← lift (py_int (bar marker_));
      time_text ← lift (format_int ((bar_number - 1) * 4));
      SubElement (Some locator) "Time" [("Value", time_text)];;
      SubElement (Some locator) "Name" [("Value", format_value (marker marker_))];;
      SubElement (Some locator) "Annotation" [("Value", EmptyString)];;
      SubElement (Some locator) "IsSongStart" [("Value", "false")];;
      add_locators locators_element_2 locator_id rest
  end.

Definition add_markers_to_ableton_project (gp_markers_dict : list MarkerRecord)
  : Py Element unit :=
  match gp_markers_dict with
  | [] => raise (Exception "There is no Guitar Pro market to import!")
  | _ :: _ =>
      live_set ← find_in (Some []) "LiveSet";
      found ← find_in live_set "Locators";
      found_is_true ← truth_of found;
      (if found_is_true : bool
       then found ← find_in live_set "Locators"; remove_child live_set found
       else mret tt : Py Element unit);;
      positions ← positions_with_tag live_set "ViewStateSessionMixerHeight";
      first ← lift (first_item positions);
      let position_for_locators_element_1 := (first + 1)%nat in
      insert_child live_set position_for_locators_element_1 (new_Element "Locators" []);;
      locators_element_1 ← find_in live_set "Locators";
      locators_element_2 ← SubElement locators_element_1 "Locators" [];
      add_locators locators_element_2 0 gp_markers_dict
  end.

(** ** Project Store Adapter *)

Definition add_als_extension_if_it_is_not_set (als_file : string) : string :=
  if endswith als_file ".als" then als_file else als_file +:+ ".als".

(** The file system: regular files in a flat name space, every file readable
    and writable, together with the log of the effects performed so far (the
    oldest first). *)
Inductive fs_event : Type :=
| Moved (src dst : string)
| Written (path : string)
| Removed (path : string)
| Printed (msg : string).

Record file_system : Type := FS { files : gmap string (list byte); events : list fs_event }.

Definition record_event (ev : fs_event) (fs : file_system) : file_system :=
  FS (files fs) (events fs ++ [ev]).

(** [os.path.isfile(path)] *)
Definition isfile (fs : gmap string (list byte)) (path : string) : bool :=
  bool_decide (is_Some (fs !! path)).

(** [shutil.move(src, dst)] for a regular file [src] and a [dst] that is not
    a directory: [os.rename] replaces an existing [dst], and where the
    platform's [rename] refuses to, [shutil.move] catches the [OSError] and
    copies over [dst] before unlinking [src].  A missing [src] raises
    [FileNotFoundError]. *)
Definition shutil_move (src dst : string) : Py file_system unit :=
  λ fs, match files fs !! src with
        | None => (fs, inl (FileNotFoundError src))
        | Some data =>
            (FS (<[dst := data]> (delete src (files fs)))
                (events fs ++ [Moved src dst]), inr tt)
        end.

(** [open(path, "wb")] or [open(path, "wb+")] followed by the writing of
    [data]: the file is created or truncated.  The empty path names no
    file. *)
Definition write_file (path : string) (data : list byte) : Py file_system unit :=
  λ fs, if decide (path = EmptyString)
        then (fs, inl (FileNotFoundError path))
        else (FS (<[path := data]> (files fs)) (events fs ++ [Written path]), inr tt).

(** [open(path, "rb")] followed by the reading of the whole file. *)
Definition read_file (path : string) : Py file_system (list byte) :=
  λ fs, match files fs !! path with
        | None => (fs, inl (FileNotFoundError path))
        | Some data => (fs, inr data)
        end.

(** [os.remove(path)] *)
Definition os_remove (path : string) : Py file_system unit :=
  λ fs, match files fs !! path with
        | None => (fs, inl (FileNotFoundError path))
        | Some _ => (FS (delete path (files fs)) (events fs ++ [Removed path]), inr tt)
        end.

(** [print(msg)] *)
Definition print (msg : string) : Py file_system unit :=
  modify_state (record_event (Printed msg)).

Section ProjectStore.

(** The codecs of the Python library, which the script only calls:
    [gzip.open(f, "rb").read()], [gzip.GzipFile(name, "wb", fileobj=...)],
    [bytes.decode("utf-8")] followed by [ET.fromstring], [ET.parse],
    [ET.indent], and [ElementTree.write(..., encoding="UTF-8",
    xml_declaration=True)]. *)
Variable gzip_decompress : list byte → Result (list byte).
Variable gzip_compress : string → list byte → list byte.
Variable xml_fromstring : list byte → Result Element.
Variable xml_parse : list byte → Result Element.
Variable xml_indent : Element → Element.
Variable xml_write : Element → list byte.

(** Lines 39-48.  The function only reads. *)
Definition extract_xml_from_ableton_project (fs : gmap string (list byte))
    (als_file : string) : Result Element :=
  let als_file := add_als_extension_if_it_is_not_set als_file in
  if isfile fs als_file then
    let project_compressed := default [] (fs !! als_file) in
    if negb (String.eqb (hexlify (take 2 project_compressed)) "1f8b")
    then inl (Exception "Nothing to do here")
    else
      project_xml_string ← gzip_decompress project_compressed;
      xml_fromstring project_xml_string
  else
    inl (FileNotFoundError
           ("The Ableton project " +:+ als_file +:+ " does not exist")).

(** Lines 59-74. *)
Definition extract_marker_from_gp_xml (fs : gmap string (list byte))
    (gp_xml_file : string) : Result (list MarkerRecord) :=
  if isfile fs gp_xml_file then
    tree ← xml_parse (default [] (fs !! gp_xml_file));
    markers_of_tree tree
  else
    inl (FileNotFoundError
           ("The GuitarPro XML file " +:+ gp_xml_file +:+ " does not exist")).

(** Lines 119-134. *)
Definition replace_ableton_project (als_file : string)
    (ableton_project_tree : Element) : Py file_system unit :=
  let als_project := add_als_extension_if_it_is_not_set als_file in
  let als_xml := replace als_project ".als" EmptyString in
  shutil_move als_project (als_xml +:+ "_old.als");;
  print ("'" +:+ als_project +:+ "' is now in '" +:+ als_xml +:+ "_old.als'");;
  write_file als_xml (xml_write (xml_indent ableton_project_tree));;
  f_in ← read_file als_xml;
  write_file als_project (gzip_compress als_xml f_in);;
  print ("New Ableton project created in '" +:+ als_project +:+ "'");;
  os_remove als_xml.

End ProjectStore.

(** ** The script: lines 137-140 *)

Section Script.

(** The codecs, as above, and the subscription [args[key]] of the object
    that [parser.parse_args()] returned: a mapping gives the value stored
    under the key, an [argparse.Namespace] has no subscription and raises
    [TypeError]. *)
Variable gzip_decompress : list byte → Result (list byte).
Variable gzip_compress : string → list byte → list byte.
Variable xml_fromstring : list byte → Result Element.
Variable xml_parse : list byte → Result Element.
Variable xml_indent : Element → Element.
Variable xml_write : Element → list byte.
Variable args_item : string → Result string.

(** The three statements under [if __name__ == "__main__"].  The arguments
    of a call are evaluated from left to right before the call; the tree
    that the splicer has mutated is the one that is saved. *)
Definition main : Py file_system unit :=
  als_file ← lift (args_item "als_file");
  fs ← get_state;
  ableton_xml ← lift (extract_xml_from_ableton_project gzip_decompress xml_fromstring
                         (files fs) als_file);
  gp_xml_file ← lift (args_item "gp_xml_file");
  fs ← get_state;
  markers ← lift (extract_marker_from_gp_xml xml_parse (files fs) gp_xml_file);
  let spliced_run := add_markers_to_ableton_project markers ableton_xml in
  lift spliced_run.2;;
  als_file ← lift (args_item "als_file");
  replace_ableton_project gzip_compress xml_indent xml_write als_file spliced_run.1.

End Script.

(** ** Vocabulary of the statements *)

(** The integer [n] can be formatted: its numeral is within the digit
    limit. *)
Definition within_str_digits (n : Z) : Prop :=
  Z.abs n < 10 ^ Z.of_nat int_max_str_digits.

(** A child element with the single attribute [Value], as the five children
    of a locator are. *)
Definition value_element (t v : string) : Element := Elem t [("Value", v)] None [].

(** The [Locator] entry with the given [Id], [Time] and [Name]. *)
Definition locator_entry (id time : Z) (name : string) : Element :=
  Elem "Locator" [("Id", str_of_int id)] None
    [ value_element "LomId" "0";
      value_element "Time" (str_of_int time);
      value_element "Name" name;
      value_element "Annotation" EmptyString;
      value_element "IsSongStart" "false" ].

(** The entry left behind when the argument of line 106 raises, in
    [int(marker["bar"])] or in the formatting of the time: the [Locator] and
    its [LomId] child exist already. *)
Definition unfinished_entry (id : Z) : Element :=
  Elem "Locator" [("Id", str_of_int id)] None [value_element "LomId" "0"].

(** What the loop appends to the nested collection, and how it ends. *)
Fixpoint locator_elements (locator_id : Z) (gp_markers_dict : list MarkerRecord)
  : list Element * Result unit :=
  match gp_markers_dict with
  | [] => ([], inr tt)
  | marker_ :: rest =>
      match format_int (locator_id + 1) with
      | inl e => ([], inl e)
      | inr _ =>
          match py_int (bar marker_) with
          | inl e => ([unfinished_entry (locator_id + 1)], inl e)
          | inr bar_number =>
              match format_int ((bar_number - 1) * 4) with
              | inl e => ([unfinished_entry (locator_id + 1)], inl e)
              | inr _ =>
                  let r := locator_elements (locator_id + 1) rest in
                  (locator_entry (locator_id + 1) ((bar_number - 1) * 4)
                     (format_value (marker marker_)) :: r.1, r.2)
              end
          end
      end
  end.

(** The entries expected for records whose bars are the integers [bars]:
    the [n]-th record (from 0) gets the [Id] [n + 1]. *)
Definition expected_locators (ms : list MarkerRecord) (bars : list Z) : list Element :=
  imap (λ n mb, locator_entry (Z.of_nat n + 1) ((mb.2 - 1) * 4)
                  (format_value (marker mb.1))) (zip ms bars).

Definition add_children (xs : list Element) (e : Element) : Element :=
  on_children (λ cs, cs ++ xs) e.

(** The children of [LiveSet] after lines 91-93: the first [Locators] child
    is removed when it tests true. *)
Definition without_stale (cs : list Element) : list Element :=
  match list_find (has_tag "Locators") cs with
  | Some (j, found) => if truth (Some found) then delete j cs else cs
  | None => cs
  end.

(** The whole effect of lines 91-109 on the children [cs] of [LiveSet], and
    how the call ends. *)
Definition spliced (cs : list Element) (ms : list MarkerRecord)
  : list Element * Result unit :=
  let cs1 := without_stale cs in
  match list_find (has_tag "ViewStateSessionMixerHeight") cs1 with
  | None => (cs1, inl IndexError)
  | Some (k, _) =>
      let cs2 := take (S k) cs1 ++ new_Element "Locators" [] :: drop (S k) cs1 in
      match list_find (has_tag "Locators") cs2 with
      | Some (j, _) =>
          (alter (add_children [Elem "Locators" [] None (locator_elements 0 ms).1]) j cs2,
           (locator_elements 0 ms).2)
      | None => (cs2, inl TypeError)
      end
  end.

(** What may happen to a sibling of the inserted node: nothing, or, for a
    node that is itself tagged [Locators], a change of its content. *)
Definition unchanged_or_collection (a b : Element) : Prop :=
  a = b ∨ (tag a = "Locators" ∧ tag b = "Locators").

(** ** Sample documents *)

Definition leaf (t : string) : Element := Elem t [] None [].

(** A project whose [LiveSet] has the anchor and no locator collection. *)
Definition sample_project : Element :=
  Elem "Ableton" [] None
    [ Elem "LiveSet" [] None
        [ leaf "Tracks"; leaf "ViewStateSessionMixerHeight"; leaf "SomeOtherNode" ] ].

Definition sample_markers : list MarkerRecord :=
  [ Marker (Some "3") (Some "Chorus"); Marker (Some "5") None ].

(** Projects whose [LiveSet] holds a [Locators] element without children,
    after the anchor and before it. *)
Definition project_with_childless_collection : Element :=
  Elem "Ableton" [] None
    [ Elem "LiveSet" [] None
        [ leaf "ViewStateSessionMixerHeight"; leaf "Locators"; leaf "SomeOtherNode" ] ].

Definition project_with_leading_childless_collection : Element :=
  Elem "Ableton" [] None
    [ Elem "LiveSet" [] None [ leaf "Locators"; leaf "ViewStateSessionMixerHeight" ] ].

(** ** Vocabulary of the statements on the extraction *)

(** The rehearsal node that a direction contributes: the first [rehearsal]
    child of its first [direction-type] child. *)
Definition rehearsal_of_direction (direction : Element) : option Element :=
  find "direction-type" direction ≫= find "rehearsal".

(** One record per direction of the measure that contributes a rehearsal
    node, in the order of the directions. *)
Definition records_of_measure (measure : Element) : list MarkerRecord :=
  omap (λ direction,
          (λ rehearsal, Marker (get "number" (attrib measure)) (text rehearsal))
            <$> rehearsal_of_direction direction)
       (findall "direction" measure).

(** The records of the measures of a part, in document order. *)
Definition records_of_part (part : Element) : list MarkerRecord :=
  measure ← findall "measure" part; records_of_measure measure.

(** The records as the specification words them: one for every [rehearsal]
    node in a [direction-type] child of a [direction] of a measure. *)
Definition stated_records_of_part (part : Element) : list MarkerRecord :=
  measure ← findall "measure" part;
  direction ← findall "direction" measure;
  direction_type ← findall "direction-type" direction;
  rehearsal ← findall "rehearsal" direction_type;
  [Marker (get "number" (attrib measure)) (text rehearsal)].

Definition stated_records (tree : Element) : list MarkerRecord :=
  part ← option_list (find "part" tree); stated_records_of_part part.

(** The bar of the record is a string that [int()] accepts. *)
Definition bar_is_integer (r : MarkerRecord) : Prop := ∃ b, py_int (bar r) = inr b.

(** The argument of line 106 has a value for the record: [int()] accepts
    the bar, and the time computed from it can be formatted. *)
Definition time_is_defined (r : MarkerRecord) : Prop :=
  ∃ b, py_int (bar r) = inr b ∧ within_str_digits ((b - 1) * 4).

(** The bar of the record is missing, or is an ASCII string that [int()]
    rejects. *)
Definition bar_is_rejected (r : MarkerRecord) : Prop :=
  match bar r with
  | None => True
  | Some s => is_ascii s ∧ py_int (Some s) = inl ValueError
  end.

(** Every direction of every measure of the part has a [direction-type]
    child, as the notation format has it. *)
Definition directions_have_type (part : Element) : Prop :=
  Forall (λ measure,
            Forall (λ direction, is_Some (find "direction-type" direction))
                   (findall "direction" measure))
         (findall "measure" part).

(** The notation format of the export,
    [measure* → direction* → direction-type → rehearsal?]: every direction
    of every measure has one [direction-type] child, which has at most one
    [rehearsal] child. *)
Definition in_notation_format (part : Element) : Prop :=
  Forall (λ measure,
            Forall (λ direction,
                      ∃ direction_type,
                        findall "direction-type" direction = [direction_type] ∧
                        (length (findall "rehearsal" direction_type) ≤ 1)%nat)
                   (findall "direction" measure))
         (findall "measure" part).

(** The notation file of the end-to-end scenario, and one, outside the
    format, whose only direction carries two rehearsal marks. *)
Definition sample_score : Element :=
  Elem "score-partwise" [] None
    [ leaf "part-list";
      Elem "part" [("id", "P1")] None
        [ Elem "measure" [("number", "1")] None [leaf "attributes"; leaf "note"];
          Elem "measure" [("number", "3")] None
            [ Elem "direction" [] None
                [Elem "direction-type" [] None [Elem "rehearsal" [] (Some "Chorus") []]];
              leaf "note" ] ] ].

Definition score_with_two_marks : Element :=
  Elem "score-partwise" [] None
    [ Elem "part" [("id", "P1")] None
        [ Elem "measure" [("number", "3")] None
            [ Elem "direction" [] None
                [ Elem "direction-type" [] None
                    [ Elem "rehearsal" [] (Some "Verse") [];
                      Elem "rehearsal" [] (Some "Chorus") [] ] ] ] ] ].

(** A measure with a single direction that holds the given rehearsal node,
    and scores made of one such measure: with a mark that has no text, and
    with a measure that has no [number] attribute. *)
Definition marked_measure (attrs : list (string * string)) (rehearsal : Element) : Element :=
  Elem "measure" attrs None
    [Elem "direction" [] None [Elem "direction-type" [] None [rehearsal]]].

Definition score_of_measure (measure : Element) : Element :=
  Elem "score-partwise" [] None [Elem "part" [("id", "P1")] None [measure]].

Definition score_with_unnamed_mark : Element :=
  score_of_measure (marked_measure [("number", "2")] (leaf "rehearsal")).

Definition score_without_number : Element :=
  score_of_measure (marked_measure [] (Elem "rehearsal" [] (Some "Intro") [])).

(** A score whose only direction has a child, but no [direction-type]. *)
Definition score_with_untyped_direction : Element :=
  score_of_measure
    (Elem "measure" [("number", "3")] None [Elem "direction" [] None [leaf "sound"]]).

(** A notation file on disk and the parser result it stands for: the
    parser is a parameter of the extraction, and these give it values. *)
Definition parsed_as (tree : Element) : list byte → Result Element := λ _, inr tree.

Definition disk_with_score : gmap string (list byte) := {[ "song.xml" := [] ]}.

(** The number of positions of [s] at which [old] starts. *)
Fixpoint occurrences (old s : string) : nat :=
  match s with
  | EmptyString => 0
  | String _ s' => (if String.prefix old s then 1 else 0) + occurrences old s'
  end.

(** Values for the codec parameters of the project store, used where a
    statement is evaluated on a concrete disk: a container that stores the
    bytes as they are, and a writer that emits no byte. *)
Definition stored (name : string) (data : list byte) : list byte := data.
Definition unstored (data : list byte) : Result (list byte) := inr data.
Definition no_bytes (tree : Element) : list byte := [].
Definition not_reindented (tree : Element) : Element := tree.

(** A disk with a project and a backup left by an earlier run. *)
Definition disk_with_backup : file_system :=
  FS {[ "song.als" := [x1f; x8b; x08]; "song_old.als" := [x00] ]} [].

(** A disk with a file that is not compressed. *)
Definition disk_with_plain_file : gmap string (list byte) :=
  {[ "song.als" := [x3c; x3f; x78; x6d; x6c] ]}.

(** The measures that pass the test of line 65: their first direction has
    at least one child. *)
Definition kept_measures (part : Element) : list Element :=
  filter (λ measure, truth (find "direction" measure) = true) (findall "measure" part).

(** Every direction of the measure has a [direction-type] child. *)
Definition measure_directions_have_type (measure : Element) : Prop :=
  Forall (λ direction, is_Some (find "direction-type" direction))
         (findall "direction" measure).

(** A score whose second measure starts with a direction without children
    and goes on with a direction that carries a mark. *)
Definition score_with_childless_direction : Element :=
  Elem "score-partwise" [] None
    [ Elem "part" [("id", "P1")] None
        [ marked_measure [("number", "1")] (Elem "rehearsal" [] (Some "Intro") []);
          Elem "measure" [("number", "2")] None
            [ leaf "direction";
              Elem "direction" [] None
                [Elem "direction-type" [] None [Elem "rehearsal" [] (Some "Verse") []]] ] ] ].

(** A project saved by an earlier import, whose [LiveSet] has lost the
    anchor. *)
Definition project_without_anchor : Element :=
  Elem "Ableton" [] None
    [ Elem "LiveSet" [] None
        [ leaf "Tracks";
          Elem "Locators" [] None [Elem "Locators" [] None [locator_entry 1 0 "Intro"]] ] ].

(** The children of [LiveSet] include at most one [Locators] node, and that
    one has children. *)
Definition one_collection_at_most (live_set : Element) : Prop :=
  match findall "Locators" live_set with
  | [] => True
  | [collection] => children collection ≠ []
  | _ => False
  end.

#[global] Instance one_collection_at_most_dec live_set :
  Decision (one_collection_at_most live_set).
Proof.
  unfold one_collection_at_most.
  destruct (findall "Locators" live_set) as [|c [|? ?]]; apply _.
Defined.

(** A container format for the codec parameters that has the magic number:
    two bytes in front of the data. *)
Definition framed (name : string) (data : list byte) : list byte := x1f :: x8b :: data.

Definition unframed (data : list byte) : Result (list byte) :=
  match data with
  | b1 :: b2 :: rest =>
      if Byte.eqb b1 x1f && Byte.eqb b2 x8b
      then inr rest
      else inl (OSError "Not a gzipped file")
  | _ => inl (OSError "Not a gzipped file")
  end.

(** A disk with a framed project, a notation file and a file of another
    kind, and arguments given as a mapping. *)
Definition disk_with_project : file_system :=
  FS {[ "song.als" := framed "song" [x3c]; "song.xml" := [x3c]; "notes.txt" := [x68; x69] ]} [].

Definition sample_args (key : string) : Result string :=
  if String.eqb key "als_file" then inr "song"
  else if String.eqb key "gp_xml_file" then inr "song.xml"
  else inl (Exception key).

(** * Properties *)

(** ** The tree store *)

Lemma set_children_same (e : Element) : set_children e (children e) = e.
Proof. by destruct e. Qed.

Lemma node_at_alter_at (h : handle) (f : Element → Element) (root : Element) :
  node_at h (alter_at f h root) = f <$> node_at h root.
Proof.
  revert root. induction h as [|i h IH]; intros root; simpl; [done|].
  rewrite list_lookup_alter_eq.
  destruct (children root !! i) as [c|]; simpl; [apply IH | done].
Qed.

Lemma alter_at_ext (h : handle) (f g : Element → Element) (root : Element) :
  (∀ e, node_at h root = Some e → f e = g e) →
  alter_at f h root = alter_at g h root.
Proof.
  revert root. induction h as [|i h IH]; intros root Hfg; simpl.
  - by apply Hfg.
  - f_equal. apply list_alter_ext; [|done].
    intros c Hc. apply IH. intros e He. apply Hfg. simpl. by rewrite Hc.
Qed.

Lemma alter_at_same (h : handle) (f : Element → Element) (root : Element) :
  (∀ e, node_at h root = Some e → f e = e) → alter_at f h root = root.
Proof.
  revert root. induction h as [|i h IH]; intros root Hf; simpl.
  - by apply Hf.
  - transitivity (set_children root (alter id i (children root))).
    + f_equal. apply list_alter_ext; [|done].
      intros c Hc. apply IH. intros e He. apply Hf. simpl. by rewrite Hc.
    + rewrite list_alter_id by done. apply set_children_same.
Qed.

Lemma list_alter_twice {A} (f g : A → A) (i : nat) (l : list A) :
  alter g i (alter f i l) = alter (g ∘ f) i l.
Proof.
  revert i. induction l as [|x l IH]; intros [|i]; simpl; try done.
  f_equal. apply IH.
Qed.

Lemma alter_at_twice (h : handle) (f g : Element → Element) (root : Element) :
  alter_at g h (alter_at f h root) = alter_at (g ∘ f) h root.
Proof.
  revert root. induction h as [|i h IH]; intros root; simpl; [done|].
  unfold set_children at 1. simpl. unfold set_children. f_equal.
  rewrite list_alter_twice. apply list_alter_ext; [|done].
  intros c _. apply IH.
Qed.

Lemma alter_at_app (h1 h2 : handle) (f : Element → Element) (root : Element) :
  alter_at f (h1 ++ h2) root = alter_at (alter_at f h2) h1 root.
Proof.
  revert root. induction h1 as [|i h1 IH]; intros root; simpl; [done|].
  f_equal. apply list_alter_ext; [|done]. intros c _. apply IH.
Qed.

Lemma node_at_app (h1 h2 : handle) (root : Element) :
  node_at (h1 ++ h2) root = node_at h1 root ≫= node_at h2.
Proof.
  revert root. induction h1 as [|i h1 IH]; intros root; simpl; [done|].
  destruct (children root !! i) as [c|]; simpl; [apply IH | done].
Qed.

(** ** Running the store operations *)

Lemma bind_run {S A B} (m : Py S A) (k : A → Py S B) (s : S) :
  (m ≫= k) s = match m s with
               | (s', inl e) => (s', inl e)
               | (s', inr a) => k a s'
               end.
Proof. done. Qed.

Lemma SubElement_run (p : handle) (t : string) (extra : list (string * string))
    (root e : Element) :
  node_at p root = Some e →
  SubElement (Some p) t extra root =
    (alter_at (add_children [new_Element t extra]) p root,
     inr (p ++ [length (children e)])).
Proof.
  intros He.
  unfold SubElement, children_at, alter_children, modify_state, get_state.
  unfold mbind, py_bind, mret, py_ret. by rewrite He.
Qed.

Lemma node_at_new_child (p : handle) (x : Element) (root e : Element) :
  node_at p root = Some e →
  node_at (p ++ [length (children e)]) (alter_at (add_children [x]) p root) = Some x.
Proof.
  intros He. rewrite node_at_app, node_at_alter_at, He. simpl.
  rewrite lookup_app_r by done. by rewrite Nat.sub_diag.
Qed.

Lemma alter_at_new_child (p : handle) (g : Element → Element) (x : Element)
    (root e : Element) :
  node_at p root = Some e →
  alter_at g (p ++ [length (children e)]) (alter_at (add_children [x]) p root) =
  alter_at (add_children [g x]) p root.
Proof.
  intros He. rewrite alter_at_app, alter_at_twice. apply alter_at_ext.
  intros e' He'. rewrite He in He'. injection He' as <-. simpl.
  unfold add_children, on_children, set_children. simpl. f_equal.
  clear. induction (children e) as [|c cs IH]; simpl; [done|]. by f_equal.
Qed.

(** Appending a child to a new node of the tree, seen from its parent. *)
Lemma SubElement_in_new_child (p : handle) (x : Element) (t : string)
    (extra : list (string * string)) (root e : Element) :
  node_at p root = Some e →
  SubElement (Some (p ++ [length (children e)])) t extra
      (alter_at (add_children [x]) p root) =
    (alter_at (add_children [add_children [new_Element t extra] x]) p root,
     inr (p ++ [length (children e)] ++ [length (children x)])).
Proof.
  intros He.
  rewrite (SubElement_run _ _ _ _ x) by by apply node_at_new_child.
  rewrite (alter_at_new_child _ _ _ _ e) by done. by rewrite <- app_assoc.
Qed.

Lemma add_children_nil (e : Element) : add_children [] e = e.
Proof.
  unfold add_children, on_children. rewrite app_nil_r. apply set_children_same.
Qed.

Lemma add_children_app (xs ys : list Element) (e : Element) :
  add_children ys (add_children xs e) = add_children (xs ++ ys) e.
Proof.
  unfold add_children, on_children, set_children. simpl. by rewrite app_assoc.
Qed.

(** Formatting an integer gives its numeral, or raises [ValueError]. *)
Lemma format_int_cases (n : Z) :
  (within_str_digits n ∧ format_int n = inr (str_of_int n)) ∨
  (¬ within_str_digits n ∧ format_int n = inl ValueError).
Proof.
  unfold format_int, within_str_digits.
  destruct (Z.ltb_spec (Z.abs n) (10 ^ Z.of_nat int_max_str_digits)); [left|right];
    split; [done..|lia|done].
Qed.

Lemma format_int_within (n : Z) :
  within_str_digits n → format_int n = inr (str_of_int n).
Proof. by destruct (format_int_cases n) as [[_ ?]|[? _]]. Qed.

(** The loop appends [locator_elements] to the nested collection. *)
Lemma add_locators_run (h : handle) (ms : list MarkerRecord) (locator_id : Z)
    (root e : Element) :
  node_at h root = Some e →
  add_locators h locator_id ms root =
    (alter_at (add_children (locator_elements locator_id ms).1) h root,
     (locator_elements locator_id ms).2).
Proof.
  revert locator_id root e. induction ms as [|m ms IH]; intros locator_id root e He.
  - simpl. rewrite alter_at_same; [done|]. intros. apply add_children_nil.
  - cbn [add_locators locator_elements].
    rewrite bind_run. unfold lift at 1.
    destruct (format_int_cases (locator_id + 1)) as [[_ ->]|[_ ->]].
    2:{ cbn [fst snd]. rewrite alter_at_same; [done|]. intros. apply add_children_nil. }
    rewrite bind_run, (SubElement_run _ _ _ _ e) by done.
    rewrite bind_run, (SubElement_in_new_child _ _ _ _ _ e) by done.
    rewrite bind_run. unfold lift at 1.
    destruct (py_int (bar m)) as [err|bar_number]; [done|].
    rewrite bind_run. unfold lift at 1.
    destruct (format_int_cases ((bar_number - 1) * 4)) as [[_ ->]|[_ ->]]; [|done].
    do 4 (rewrite bind_run, (SubElement_in_new_child _ _ _ _ _ e) by done).
    erewrite IH by (rewrite node_at_alter_at, He; done).
    rewrite alter_at_twice. f_equal. apply alter_at_ext.
    intros e' _. simpl. by rewrite add_children_app.
Qed.

Lemma find_in_run (p : handle) (t : string) (root : Element) :
  find_in (Some p) t root =
    (root, inr ((λ found, p ++ [found.1]) <$> list_find (has_tag t) (children_at p root))).
Proof. done. Qed.

Lemma find_in_None_run (t : string) (root : Element) :
  find_in None t root = (root, inl AttributeError).
Proof. done. Qed.

Lemma truth_of_run (o : option handle) (root : Element) :
  truth_of o root = (root, inr (truth (o ≫= λ h, node_at h root))).
Proof. done. Qed.

Lemma remove_child_run (p : handle) (j : nat) (root : Element) :
  remove_child (Some p) (Some (p ++ [j])) root =
    (alter_at (on_children (delete j)) p root, inr tt).
Proof.
  unfold remove_child. rewrite bind_run. simpl.
  rewrite last_snoc. by rewrite decide_True.
Qed.

Lemma insert_child_run (p : handle) (position : nat) (x : Element) (root : Element) :
  insert_child (Some p) position x root =
    (alter_at (on_children (λ cs, take position cs ++ x :: drop position cs)) p root,
     inr tt).
Proof. done. Qed.

Lemma positions_from_first (t : string) (start : nat) (cs : list Element) :
  first_item (positions_from t start cs) =
    match list_find (has_tag t) cs with
    | Some (k, _) => inr (start + k)%nat
    | None => inl IndexError
    end.
Proof.
  revert start. induction cs as [|c cs IH]; intros start; simpl; [done|].
  destruct (decide (has_tag t c)); simpl.
  - by rewrite Nat.add_0_r.
  - rewrite IH. destruct (list_find (has_tag t) cs) as [[k x]|]; simpl; [|done].
    f_equal. lia.
Qed.

Lemma node_at_child (i : nat) (root e : Element) :
  children root !! i = Some e → node_at [i] root = Some e.
Proof. intros H. simpl. by rewrite H. Qed.

(** The node behind the reference that [find_in] returns is the element
    that [find] returns. *)
Lemma node_at_found (p : handle) (t : string) (root e : Element) :
  node_at p root = Some e →
  ((λ found : nat * Element, p ++ [found.1]) <$> list_find (has_tag t) (children e))
    ≫= (λ h, node_at h root) = find t e.
Proof.
  intros He. unfold find.
  destruct (list_find (has_tag t) (children e)) as [[j c]|] eqn:Hc; [|done].
  apply list_find_Some in Hc as (Hj & _ & _). simpl.
  rewrite node_at_app, He. simpl. by rewrite Hj.
Qed.

(** Lines 92-93, run on a tree whose [LiveSet] is the child [i]. *)
Lemma remove_stale_run (i : nat) (root ls : Element) :
  node_at [i] root = Some ls →
  (if truth (find "Locators" ls)
   then found ← find_in (Some [i]) "Locators"; remove_child (Some [i]) found
   else mret tt) root =
    (alter_at (on_children (λ _, without_stale (children ls))) [i] root, inr tt).
Proof.
  intros Hi.
  assert (Hkids : children_at [i] root = children ls)
    by (unfold children_at; by rewrite Hi).
  assert (Hsame : ∀ cs, cs = children ls →
            root = alter_at (on_children (λ _, cs)) [i] root).
  { intros cs ->. symmetry. apply alter_at_same. intros e He.
    rewrite Hi in He. injection He as <-. apply set_children_same. }
  unfold without_stale, find.
  destruct (list_find (has_tag "Locators") (children ls)) as [[j l]|] eqn:Hl;
    cbn [fmap option_fmap option_map snd].
  - destruct (truth (Some l)).
    + rewrite bind_run, find_in_run, Hkids, Hl. cbv beta iota.
      cbn [fmap option_fmap option_map fst]. rewrite remove_child_run.
      f_equal. apply alter_at_ext. intros e He. rewrite Hi in He. by injection He as <-.
    + unfold mret, py_ret. f_equal. by apply Hsame.
  - change (truth None) with false. cbv iota. unfold mret, py_ret. f_equal.
    by apply Hsame.
Qed.

Lemma alter_at_on_children_twice (p : handle) (f g : list Element → list Element)
    (root : Element) :
  alter_at (on_children g) p (alter_at (on_children f) p root) =
  alter_at (on_children (g ∘ f)) p root.
Proof. rewrite alter_at_twice. by apply alter_at_ext. Qed.

Lemma add_markers_run (m : MarkerRecord) (ms : list MarkerRecord) (root : Element) :
  add_markers_to_ableton_project (m :: ms) root =
    match list_find (has_tag "LiveSet") (children root) with
    | None => (root, inl AttributeError)
    | Some (i, live_set) =>
        (alter_at (on_children (λ _, (spliced (children live_set) (m :: ms)).1)) [i] root,
         (spliced (children live_set) (m :: ms)).2)
    end.
Proof.
  unfold add_markers_to_ableton_project.
  rewrite bind_run, find_in_run. change (children_at [] root) with (children root).
  cbv beta iota.
  destruct (list_find (has_tag "LiveSet") (children root)) as [[i ls]|] eqn:Hls;
    cbn [fmap option_fmap option_map fst app];
    [|by rewrite bind_run, find_in_None_run].
  apply list_find_Some in Hls as (Hi & _ & _). apply node_at_child in Hi.
  assert (Hkids : children_at [i] root = children ls)
    by (unfold children_at; by rewrite Hi).
  rewrite bind_run, find_in_run, Hkids. cbv beta iota.
  rewrite bind_run, truth_of_run. cbv beta iota.
  rewrite (node_at_found [i] _ _ ls) by done.
  rewrite bind_run, (remove_stale_run _ _ ls) by done.
  unfold spliced. set (cs1 := without_stale (children ls)).
  set (root1 := alter_at (on_children (λ _, cs1)) [i] root).
  assert (Hi1 : node_at [i] root1 = Some (on_children (λ _, cs1) ls))
    by (unfold root1; by rewrite node_at_alter_at, Hi).
  rewrite bind_run. unfold positions_with_tag. rewrite bind_run.
  unfold get_state at 1. cbv beta iota. unfold mret at 1, py_ret at 1.
  unfold children_at at 1. rewrite Hi1. cbn [from_option on_children set_children children].
  rewrite bind_run. unfold lift at 1. rewrite positions_from_first.
  destruct (list_find (has_tag "ViewStateSessionMixerHeight") cs1) as [[k a]|] eqn:Hk;
    [|done].
  cbv beta iota zeta. rewrite Nat.add_0_l, Nat.add_1_r.
  rewrite bind_run, insert_child_run. unfold root1.
  rewrite alter_at_on_children_twice.
  set (cs2 := take (S k) cs1 ++ new_Element "Locators" [] :: drop (S k) cs1).
  change (on_children (_ ∘ _)) with (on_children (λ _ : list Element, cs2)).
  set (root2 := alter_at (on_children (λ _, cs2)) [i] root).
  assert (Hi2 : node_at [i] root2 = Some (on_children (λ _, cs2) ls))
    by (unfold root2; by rewrite node_at_alter_at, Hi).
  rewrite bind_run, find_in_run. unfold children_at at 1. rewrite Hi2.
  cbn [from_option on_children set_children children]. cbv beta iota.
  destruct (list_find (has_tag "Locators") cs2) as [[j l1]|] eqn:Hj;
    cbn [fmap option_fmap option_map fst snd app]; [|done].
  apply list_find_Some in Hj as (Hj & _ & _).
  assert (Hl1 : node_at [i; j] root2 = Some l1).
  { change [i; j] with ([i] ++ [j]). rewrite node_at_app, Hi2. simpl. by rewrite Hj. }
  rewrite bind_run, (SubElement_run _ _ _ _ l1) by done.
  rewrite (add_locators_run _ _ _ _ (new_Element "Locators" []))
    by by apply node_at_new_child.
  rewrite (alter_at_new_child _ _ _ _ l1) by done.
  f_equal. change [i; j] with ([i] ++ [j]). rewrite alter_at_app.
  unfold root2. rewrite alter_at_twice. apply alter_at_ext.
  intros e He. rewrite Hi in He. by injection He as <-.
Qed.

(** ** Lists of children *)

Lemma list_find_alter_same {A} (P : A → Prop) `{∀ x, Decision (P x)}
    (f : A → A) (l : list A) (i : nat) (x : A) :
  list_find P l = Some (i, x) → P (f x) →
  list_find P (alter f i l) = Some (i, f x).
Proof.
  intros (Hi & HP & Hlt)%list_find_Some Hfx. apply list_find_Some.
  split_and!; [by rewrite list_lookup_alter_eq, Hi | done |].
  intros j y Hj Hji. rewrite list_lookup_alter_ne in Hj by lia. by eapply Hlt.
Qed.

Lemma list_alter_as_insert {A} (f : A → A) (l : list A) (i : nat) (x : A) :
  l !! i = Some x → alter f i l = <[i := f x]> l.
Proof.
  revert i. induction l as [|y l IH]; intros [|i] Hi; simplify_eq/=; [done|].
  f_equal. by apply IH.
Qed.

Lemma insert_middle_lookup {A} (l : list A) (k : nat) (x : A) :
  (k < length l)%nat → (take (S k) l ++ x :: drop (S k) l) !! S k = Some x.
Proof.
  intros Hk. rewrite lookup_app_r by (rewrite length_take; lia).
  rewrite length_take. replace (S k - S k `min` length l)%nat with 0%nat by lia. done.
Qed.

Lemma insert_middle_lookup_lt {A} (l : list A) (k j : nat) (x : A) :
  (k < length l)%nat → (j ≤ k)%nat →
  (take (S k) l ++ x :: drop (S k) l) !! j = l !! j.
Proof.
  intros Hk Hj. rewrite lookup_app_l by (rewrite length_take; lia).
  apply lookup_take_lt. lia.
Qed.

Lemma delete_insert_middle {A} (l : list A) (k : nat) (x : A) :
  (k < length l)%nat → delete (S k) (take (S k) l ++ x :: drop (S k) l) = l.
Proof.
  intros Hk. rewrite delete_take_drop.
  rewrite take_app_length' by (rewrite length_take; lia).
  replace (S (S k)) with (length (take (S k) l) + 1)%nat
    by (rewrite length_take; lia).
  rewrite drop_app_add'; [|done]. simpl. rewrite drop_0. apply take_drop.
Qed.

Lemma elem_of_delete_other {A} (l : list A) (j : nat) (x y : A) :
  l !! j = Some x → y ∈ l → y ≠ x → y ∈ delete j l.
Proof.
  intros Hj Hy Hne. rewrite delete_take_drop.
  rewrite <- (take_drop_middle l j x Hj) in Hy.
  rewrite elem_of_app, elem_of_cons in Hy. rewrite elem_of_app.
  destruct Hy as [Hy|[Hy|Hy]]; [by left | done | by right].
Qed.

Lemma elem_of_delete_inv {A} (l : list A) (j : nat) (y : A) :
  y ∈ delete j l → y ∈ l.
Proof. intros Hy. eapply elem_of_sublist; [done | apply sublist_delete]. Qed.

(** ** The removal step *)

Lemma without_stale_cases (cs : list Element) :
  without_stale cs = cs ∨
  ∃ j l, list_find (has_tag "Locators") cs = Some (j, l) ∧ children l ≠ [] ∧
         without_stale cs = delete j cs.
Proof.
  unfold without_stale.
  destruct (list_find (has_tag "Locators") cs) as [[j l]|] eqn:Hl; [|by left].
  unfold truth. case_bool_decide; simpl; [by left|]. right. by exists j, l.
Qed.

Lemma without_stale_find_other (t : string) (cs : list Element) :
  t ≠ "Locators" →
  (list_find (has_tag t) (without_stale cs) = None ↔ list_find (has_tag t) cs = None).
Proof.
  intros Ht. destruct (without_stale_cases cs) as [->|(j & l & Hl & _ & ->)]; [done|].
  apply list_find_Some in Hl as (Hj & Hl & _).
  rewrite !list_find_None, !Forall_forall. split.
  - intros Hno y Hy Hty. apply (Hno y); [|done].
    apply (elem_of_delete_other _ _ l); [done..|].
    intros ->. unfold has_tag in *. congruence.
  - intros Hno y Hy. apply Hno. by eapply elem_of_delete_inv.
Qed.

(** ** The insertion and the loop *)

Lemma spliced_with_anchor (cs : list Element) (ms : list MarkerRecord)
    (k : nat) (a : Element) :
  list_find (has_tag "ViewStateSessionMixerHeight") (without_stale cs) = Some (k, a) →
  ∃ j l1,
    (j ≤ S k)%nat ∧
    list_find (has_tag "Locators")
      (take (S k) (without_stale cs) ++
       new_Element "Locators" [] :: drop (S k) (without_stale cs)) = Some (j, l1) ∧
    spliced cs ms =
      (alter (add_children [Elem "Locators" [] None (locator_elements 0 ms).1]) j
         (take (S k) (without_stale cs) ++
          new_Element "Locators" [] :: drop (S k) (without_stale cs)),
       (locator_elements 0 ms).2).
Proof.
  intros Hk. unfold spliced. rewrite Hk. cbv zeta.
  apply list_find_Some in Hk as (Hk & _ & _). apply lookup_lt_Some in Hk.
  set (cs2 := take _ _ ++ _ :: drop _ _).
  assert (Hnew : cs2 !! S k = Some (new_Element "Locators" []))
    by by apply insert_middle_lookup.
  destruct (list_find (has_tag "Locators") cs2) as [[j l1]|] eqn:Hj.
  - exists j, l1. split_and!; [|done..].
    apply list_find_Some in Hj as (_ & _ & Hmin).
    destruct (decide (j ≤ S k)%nat); [done|].
    exfalso. apply (Hmin (S k) _ Hnew); [lia | done].
  - apply list_find_None in Hj. rewrite Forall_forall in Hj.
    exfalso. apply (Hj (new_Element "Locators" [])); [|done].
    by eapply list_elem_of_lookup_2.
Qed.

Lemma py_int_error (v : option string) (e : py_exception) :
  py_int v = inl e → e = TypeError ∨ e = ValueError.
Proof.
  destruct v as [s|]; cbn [py_int]; [|intros [= <-]; by left].
  destruct (signed_value _); [case (_ <=? _)%nat|]; intros [= <-]; by right.
Qed.

Lemma locator_elements_error (ms : list MarkerRecord) (id : Z) (e : py_exception) :
  (locator_elements id ms).2 = inl e → e = TypeError ∨ e = ValueError.
Proof.
  revert id. induction ms as [|m ms IH]; intros id; cbn [locator_elements]; [done|].
  destruct (format_int_cases (id + 1)) as [[_ ->]|[_ ->]];
    [|intros [= <-]; by right].
  destruct (py_int (bar m)) as [e'|b] eqn:Hb.
  - intros [= <-]. by eapply py_int_error.
  - destruct (format_int_cases ((b - 1) * 4)) as [[_ ->]|[_ ->]];
      [apply IH | intros [= <-]; by right].
Qed.

Lemma locator_elements_fails (ms : list MarkerRecord) (id : Z) :
  Exists (λ m, ∃ e, py_int (bar m) = inl e) ms →
  ∃ e, (locator_elements id ms).2 = inl e.
Proof.
  intros Hex. revert id.
  induction Hex as [m ms [e He]|m ms _ IH]; intros id; cbn [locator_elements];
    (destruct (format_int_cases (id + 1)) as [[_ ->]|[_ ->]]; [|by eexists]).
  - rewrite He. by exists e.
  - destruct (py_int (bar m)) as [e|b]; [by exists e|].
    destruct (format_int_cases ((b - 1) * 4)) as [[_ ->]|[_ ->]];
      [apply IH | by eexists].
Qed.

(** Smaller natural numbers are within the digit limit too. *)
Lemma within_str_digits_le (a b : Z) :
  0 ≤ a ≤ b → within_str_digits b → within_str_digits a.
Proof. unfold within_str_digits. lia. Qed.

Lemma locator_elements_ok (ms : list MarkerRecord) (bars : list Z) (id : Z) :
  0 ≤ id →
  Forall2 (λ m b, py_int (bar m) = inr b) ms bars →
  within_str_digits (id + Z.of_nat (length ms)) →
  Forall (λ b, within_str_digits ((b - 1) * 4)) bars →
  locator_elements id ms =
    (imap (λ n mb, locator_entry (id + Z.of_nat n + 1) ((mb.2 - 1) * 4)
                     (format_value (marker mb.1))) (zip ms bars), inr tt).
Proof.
  intros Hid Hbars. revert id Hid.
  induction Hbars as [|m b ms bars Hb _ IH]; intros id Hid Hids Htimes; [done|].
  apply Forall_cons in Htimes as [Htime Htimes].
  cbn [locator_elements length] in *.
  rewrite format_int_within by (eapply within_str_digits_le; [|exact Hids]; lia).
  rewrite Hb, (format_int_within _ Htime), IH; [|lia| |done].
  - simpl. f_equal. f_equal; [f_equal; lia|].
    apply imap_ext. intros n [m' b'] _. simpl. f_equal. lia.
  - replace (id + 1 + Z.of_nat (length ms)) with (id + Z.of_nat (S (length ms))) by lia.
    done.
Qed.

(** The result of a call that reaches the insertion: the tree with its
    [LiveSet] child replaced, and the outcome of the loop. *)
Lemma add_markers_reaching_insertion (m : MarkerRecord) (ms : list MarkerRecord)
    (root live_set a : Element) (i k : nat) :
  list_find (has_tag "LiveSet") (children root) = Some (i, live_set) →
  list_find (has_tag "ViewStateSessionMixerHeight")
    (without_stale (children live_set)) = Some (k, a) →
  ∃ j l1,
    (j ≤ S k)%nat ∧
    list_find (has_tag "Locators")
      (take (S k) (without_stale (children live_set)) ++
       new_Element "Locators" [] :: drop (S k) (without_stale (children live_set)))
      = Some (j, l1) ∧
    add_markers_to_ableton_project (m :: ms) root =
      (set_children root
         (alter (λ e, set_children e
            (alter (add_children
                      [Elem "Locators" [] None (locator_elements 0 (m :: ms)).1]) j
               (take (S k) (without_stale (children live_set)) ++
                new_Element "Locators" [] ::
                drop (S k) (without_stale (children live_set))))) i (children root)),
       (locator_elements 0 (m :: ms)).2).
Proof.
  intros Hls Hk.
  destruct (spliced_with_anchor _ (m :: ms) _ _ Hk) as (j & l1 & Hjk & Hj & Hsp).
  exists j, l1. split_and!; [done..|].
  by rewrite add_markers_run, Hls, Hsp.
Qed.

Lemma find_after_alter (t : string) (f : Element → Element) (e x : Element) (i : nat) :
  list_find (has_tag t) (children e) = Some (i, x) → tag (f x) = t →
  find t (set_children e (alter f i (children e))) = Some (f x).
Proof.
  intros Hx Hf. unfold find. simpl.
  by rewrite (list_find_alter_same _ _ _ _ x).
Qed.

Lemma find_is_Some_without_stale (t : string) (e : Element) :
  t ≠ "Locators" → is_Some (find t e) →
  is_Some (list_find (has_tag t) (without_stale (children e))).
Proof.
  intros Ht. unfold find. rewrite fmap_is_Some, <- !not_eq_None_Some.
  by rewrite without_stale_find_other.
Qed.

Lemma find_Some_list_find (t : string) (e x : Element) :
  find t e = Some x ↔ ∃ i, list_find (has_tag t) (children e) = Some (i, x).
Proof.
  unfold find. destruct (list_find (has_tag t) (children e)) as [[i y]|]; simpl.
  - split; [intros [= ->]; by exists i | intros [? [= _ ->]]; done].
  - split; [done | by intros [? ?]].
Qed.

Lemma find_None_list_find (t : string) (e : Element) :
  find t e = None ↔ list_find (has_tag t) (children e) = None.
Proof. unfold find. by rewrite fmap_None. Qed.

(** When no [Locators] child is left before the insertion, the new node is
    the first one: it is the node that receives the nested collection. *)
Lemma first_collection_is_new (cs1 : list Element) (k j : nat) (l1 : Element) :
  (k < length cs1)%nat →
  list_find (has_tag "Locators") cs1 = None →
  list_find (has_tag "Locators")
    (take (S k) cs1 ++ new_Element "Locators" [] :: drop (S k) cs1) = Some (j, l1) →
  j = S k ∧ l1 = new_Element "Locators" [].
Proof.
  intros Hk Hnone (Hj & Hl1 & _)%list_find_Some.
  apply list_find_None in Hnone. rewrite Forall_forall in Hnone.
  destruct (decide (j = S k)) as [->|Hne].
  - rewrite insert_middle_lookup in Hj by done. by injection Hj as <-.
  - exfalso. destruct (decide (j < S k)%nat).
    + rewrite insert_middle_lookup_lt in Hj by lia.
      apply (Hnone l1); [by eapply list_elem_of_lookup_2 | done].
    + rewrite lookup_app_r in Hj by (rewrite length_take; lia).
      rewrite length_take in Hj.
      destruct (j - S k `min` length cs1)%nat as [|pos] eqn:Hn; [lia|].
      simpl in Hj. apply (Hnone l1); [|done].
      apply list_elem_of_lookup_2 in Hj. by eapply subseteq_drop.
Qed.

Lemma length_expected_locators (ms : list MarkerRecord) (bars : list Z) :
  length ms = length bars → length (expected_locators ms bars) = length ms.
Proof.
  intros Hlen. unfold expected_locators. rewrite length_imap, length_zip. lia.
Qed.

(** ** Locator Splicer: the claims *)

(** C4. With an empty marker list the call raises the exception of line 88
    and the tree is exactly the tree that was passed: the check comes before
    every access to the document. *)
Theorem empty_markers_rejected (root : Element) :
  add_markers_to_ableton_project [] root =
    (root, inl (Exception "There is no Guitar Pro market to import!")).
Proof. done. Qed.

Lemma lookup_expected_locators (ms : list MarkerRecord) (bars : list Z)
    (n : nat) (m : MarkerRecord) (b : Z) :
  ms !! n = Some m → bars !! n = Some b →
  expected_locators ms bars !! n =
    Some (locator_entry (Z.of_nat n + 1) ((b - 1) * 4) (format_value (marker m))).
Proof.
  intros Hm Hb. unfold expected_locators.
  rewrite list_lookup_imap.
  assert (Hzip : zip ms bars !! n = Some (m, b))
    by (apply lookup_zip_with_Some; by exists m, b).
  by rewrite Hzip.
Qed.

(** The successful call: where the entries are, and which they are. *)
Lemma created_collection (ms : list MarkerRecord) (bars : list Z)
    (root live_set : Element) :
  ms ≠ [] →
  find "LiveSet" root = Some live_set →
  is_Some (find "ViewStateSessionMixerHeight" live_set) →
  Forall2 (λ m b, py_int (bar m) = inr b) ms bars →
  within_str_digits (Z.of_nat (length ms)) →
  Forall (λ b, within_str_digits ((b - 1) * 4)) bars →
  ∃ root' live_set' collection,
    add_markers_to_ableton_project ms root = (root', inr tt) ∧
    find "LiveSet" root' = Some live_set' ∧
    find "Locators" live_set' = Some collection ∧
    last (children collection) =
      Some (Elem "Locators" [] None (expected_locators ms bars)) ∧
    length (expected_locators ms bars) = length ms ∧
    (find "Locators" (set_children live_set (without_stale (children live_set))) = None →
     collection =
       Elem "Locators" [] None [Elem "Locators" [] None (expected_locators ms bars)]).
Proof.
  intros Hms [i Hls]%find_Some_list_find Hanchor Hbars Hids Htimes.
  destruct ms as [|m ms]; [done|].
  apply find_is_Some_without_stale in Hanchor as [[k a] Hk]; [|done].
  destruct (add_markers_reaching_insertion m ms _ _ _ _ _ Hls Hk)
    as (j & l1 & Hjk & Hj & Hrun).
  rewrite (locator_elements_ok _ bars) in Hrun by done. simpl fst in Hrun. simpl snd in Hrun.
  change (imap _ _) with (expected_locators (m :: ms) bars) in Hrun.
  eexists _, _, _. split; [exact Hrun|].
  pose proof (proj1 (list_find_Some _ _ _ _) Hls) as (_ & Htag & _).
  split; [by apply (find_after_alter _ _ _ live_set)|].
  pose proof (proj1 (list_find_Some _ _ _ _) Hj) as (_ & Htag1 & _).
  split; [by apply (find_after_alter "Locators" _
                      (set_children live_set _) l1)|].
  split; [simpl; by rewrite last_snoc|].
  split; [apply length_expected_locators; by eapply Forall2_length|].
  intros Hnone%find_None_list_find. simpl in Hnone.
  apply list_find_Some in Hk as (Hk & _ & _). apply lookup_lt_Some in Hk.
  by destruct (first_collection_is_new _ _ _ _ Hk Hnone Hj) as [-> ->].
Qed.

(** C1. For a non-empty marker list whose bars are the integers [bars], and
    a tree with a [LiveSet] that has the anchor child, the call succeeds and
    the nested collection it creates (the last child of the [Locators] node
    of [LiveSet]) holds exactly one [Locator] per record, in the order of
    the records: the [n]-th (from 0) has [Id] [n + 1], [LomId] ["0"], [Time]
    [(bar - 1) * 4], [Name] the formatted label (the label itself when it is
    a string), [Annotation] the empty string and [IsSongStart] ["false"].  When no other
    [Locators] child is left in [LiveSet], the [Locators] node holds the
    nested collection and nothing else.  The numbers are those that the
    interpreter converts: the bars are numerals that [int()] reads, within
    its digit limit, and the number of records and the times are within the
    digit limit of the formatting. *)
Theorem locators_follow_markers (ms : list MarkerRecord) (bars : list Z)
    (root live_set : Element) :
  ms ≠ [] →
  find "LiveSet" root = Some live_set →
  is_Some (find "ViewStateSessionMixerHeight" live_set) →
  Forall2 (λ m b, py_int (bar m) = inr b) ms bars →
  within_str_digits (Z.of_nat (length ms)) →
  Forall (λ b, within_str_digits ((b - 1) * 4)) bars →
  ∃ root' live_set' collection entries,
    add_markers_to_ableton_project ms root = (root', inr tt) ∧
    find "LiveSet" root' = Some live_set' ∧
    find "Locators" live_set' = Some collection ∧
    last (children collection) = Some (Elem "Locators" [] None entries) ∧
    length entries = length ms ∧
    (∀ n m b, ms !! n = Some m → bars !! n = Some b →
       entries !! n =
         Some (Elem "Locator" [("Id", str_of_int (Z.of_nat n + 1))] None
                 [ Elem "LomId" [("Value", "0")] None [];
                   Elem "Time" [("Value", str_of_int ((b - 1) * 4))] None [];
                   Elem "Name" [("Value", format_value (marker m))] None [];
                   Elem "Annotation" [("Value", EmptyString)] None [];
                   Elem "IsSongStart" [("Value", "false")] None [] ]) ∧
       ∀ label, marker m = Some label → format_value (marker m) = label) ∧
    (find "Locators" (set_children live_set (without_stale (children live_set))) = None →
     collection = Elem "Locators" [] None [Elem "Locators" [] None entries]).
Proof.
  intros Hms Hls Hanchor Hbars Hids Htimes.
  destruct (created_collection ms bars root live_set Hms Hls Hanchor Hbars Hids Htimes)
    as (root' & live_set' & collection & Hrun & Hls' & Hcoll & Hlast & Hlen & Hnew).
  exists root', live_set', collection, (expected_locators ms bars).
  split_and!; try done.
  intros n m b Hm Hb. split.
  - by apply lookup_expected_locators.
  - intros label Hlabel. by rewrite Hlabel.
Qed.

(** C8. With a non-empty marker list, a tree whose root has no [LiveSet]
    child makes the call raise [AttributeError] (the method call on [None]
    at line 91) with the tree untouched, and a [LiveSet] without the anchor
    child makes it raise [IndexError] (the subscript [[0]] of the empty list
    at line 97).  No other failure of the call raises one of these two
    exceptions, so they tell a structure failure apart from every other
    one. *)
Theorem missing_anchor_nodes_abort (ms : list MarkerRecord) (root : Element) :
  ms ≠ [] →
  (find "LiveSet" root = None →
   add_markers_to_ableton_project ms root = (root, inl AttributeError)) ∧
  (∀ live_set, find "LiveSet" root = Some live_set →
     find "ViewStateSessionMixerHeight" live_set = None →
     ∃ root', add_markers_to_ableton_project ms root = (root', inl IndexError)) ∧
  (∀ root' e, add_markers_to_ableton_project ms root = (root', inl e) →
     (e = AttributeError ↔ find "LiveSet" root = None) ∧
     (e = IndexError ↔
        ∃ live_set, find "LiveSet" root = Some live_set ∧
                    find "ViewStateSessionMixerHeight" live_set = None)).
Proof.
  intros Hms. destruct ms as [|m ms]; [done|]. clear Hms.
  rewrite add_markers_run.
  destruct (list_find (has_tag "LiveSet") (children root)) as [[i ls]|] eqn:Hls.
  2:{ apply find_None_list_find in Hls. rewrite Hls.
      split; [done|]. split; [intros ? [=]|]. intros root' e [= _ <-].
      split; [done|]. split; [done|]. by intros (? & ? & _). }
  assert (Hfind : find "LiveSet" root = Some ls)
    by (apply find_Some_list_find; by exists i).
  rewrite Hfind. split; [done|]. split.
  - intros ? [= <-] Hnone%find_None_list_find.
    apply without_stale_find_other in Hnone; [|done].
    unfold spliced. rewrite Hnone. by eexists.
  - intros root' e.
    destruct (list_find (has_tag "ViewStateSessionMixerHeight")
                (without_stale (children ls))) as [[k a]|] eqn:Hk.
    + destruct (spliced_with_anchor _ (m :: ms) _ _ Hk) as (j & l1 & _ & _ & ->).
      intros He%(f_equal snd). cbn [snd] in He.
      apply locator_elements_error in He.
      assert (find "ViewStateSessionMixerHeight" ls ≠ None) as Hfound.
      { rewrite find_None_list_find, <- without_stale_find_other by done.
        by rewrite Hk. }
      split; (split; [intros ->; by destruct He|]); [done|].
      by intros (? & [= <-] & ?).
    + unfold spliced. rewrite Hk. cbn [fst snd]. intros [= _ <-].
      split; [done|]. split; [|done]. intros _. exists ls. split; [done|].
      by rewrite find_None_list_find, <- without_stale_find_other.
Qed.

Lemma delete_alter_same {A} (f : A → A) (l : list A) (i : nat) :
  delete i (alter f i l) = delete i l.
Proof.
  revert i. induction l as [|x l IH]; intros [|i]; simpl; try done.
  f_equal. apply IH.
Qed.

Lemma delete_alter_lt {A} (f : A → A) (l : list A) (i j : nat) :
  (j < i)%nat → delete i (alter f j l) = alter f j (delete i l).
Proof.
  revert i j. induction l as [|x l IH]; intros [|i] [|j] Hji; simpl; try done; try lia.
  f_equal. apply IH. lia.
Qed.

Lemma unchanged_or_collection_refl (l : list Element) :
  Forall2 unchanged_or_collection l l.
Proof. apply Forall_Forall2_diag, Forall_forall. intros x _. by left. Qed.

(** C7. When the call succeeds, the only child of the root that changes is
    [LiveSet], which keeps its tag, attributes and text; among its children
    the first one tagged [ViewStateSessionMixerHeight] is at some position
    [k], the child at position [k + 1] is the new [Locators] node (empty, or
    holding just the nested collection), and taking that child away leaves
    the children that [LiveSet] had after the removal step, in the same
    order, each of them unchanged unless it is itself tagged [Locators]. *)
Theorem collection_inserted_after_anchor (ms : list MarkerRecord)
    (root root' : Element) :
  add_markers_to_ableton_project ms root = (root', inr tt) →
  ∃ i live_set live_set' k anchor node,
    list_find (has_tag "LiveSet") (children root) = Some (i, live_set) ∧
    root' = set_children root (<[i := live_set']> (children root)) ∧
    live_set' = set_children live_set (children live_set') ∧
    list_find (has_tag "ViewStateSessionMixerHeight") (children live_set')
      = Some (k, anchor) ∧
    children live_set' !! S k = Some node ∧
    (node = new_Element "Locators" [] ∨
     ∃ entries, node = Elem "Locators" [] None [Elem "Locators" [] None entries]) ∧
    Forall2 unchanged_or_collection
      (without_stale (children live_set)) (delete (S k) (children live_set')).
Proof.
  destruct ms as [|m ms]; [done|]. rewrite add_markers_run.
  destruct (list_find (has_tag "LiveSet") (children root)) as [[i ls]|] eqn:Hls;
    [|done].
  destruct (list_find (has_tag "ViewStateSessionMixerHeight")
              (without_stale (children ls))) as [[k a]|] eqn:Hk;
    [|unfold spliced; by rewrite Hk].
  destruct (spliced_with_anchor _ (m :: ms) _ _ Hk) as (j & l1 & Hjk & Hj & ->).
  cbn [fst snd]. set (cs1 := without_stale (children ls)) in *.
  set (cs2 := take (S k) cs1 ++ new_Element "Locators" [] :: drop (S k) cs1) in *.
  set (F := add_children _). intros [= <- _].
  pose proof (proj1 (list_find_Some _ _ _ _) Hls) as (Hi & _ & _).
  pose proof (proj1 (list_find_Some _ _ _ _) Hk) as (Hka & Htag_a & Hmin_a).
  pose proof (proj1 (list_find_Some _ _ _ _) Hj) as (Hjl & Htag_l & _).
  assert (Hklen : (k < length cs1)%nat) by by eapply lookup_lt_Some.
  assert (Hnew : cs2 !! S k = Some (new_Element "Locators" []))
    by by apply insert_middle_lookup.
  assert (Hjk' : j ≠ k).
  { intros ->. unfold cs2 in Hjl. rewrite insert_middle_lookup_lt in Hjl by done.
    rewrite Hka in Hjl. injection Hjl as ->. unfold has_tag in *. congruence. }
  exists i, ls, (set_children ls (alter F j cs2)), k, a.
  exists (if decide (j = S k) then F (new_Element "Locators" [])
          else new_Element "Locators" []).
  split; [done|]. split.
  { cbn [alter_at]. by rewrite (list_alter_as_insert _ _ _ ls Hi). }
  split; [done|]. cbn [children set_children]. split.
  { apply list_find_Some. split_and!; [|done|].
    - rewrite list_lookup_alter_ne by done. unfold cs2.
      by rewrite insert_middle_lookup_lt.
    - intros j' y Hy Hlt.
      destruct (decide (j = j')) as [<-|Hne].
      + rewrite list_lookup_alter_eq, Hjl in Hy. injection Hy as <-.
        unfold has_tag in *. simpl. congruence.
      + rewrite list_lookup_alter_ne in Hy by done. unfold cs2 in Hy.
        rewrite insert_middle_lookup_lt in Hy by lia. by eapply Hmin_a. }
  split.
  { case_decide as Hjs.
    - subst j. by rewrite list_lookup_alter_eq, Hnew.
    - by rewrite list_lookup_alter_ne. }
  split.
  { case_decide; [right; by eexists | by left]. }
  destruct (decide (j = S k)) as [->|Hjs].
  - rewrite delete_alter_same. unfold cs2. rewrite delete_insert_middle by done.
    apply unchanged_or_collection_refl.
  - rewrite delete_alter_lt by lia. unfold cs2.
    rewrite delete_insert_middle by done.
    apply Forall2_alter_r.
    + apply unchanged_or_collection_refl.
    + intros x y Hx Hy _. right. unfold cs2 in Hjl.
      rewrite insert_middle_lookup_lt in Hjl by lia.
      unfold cs1 in *. rewrite Hjl in Hx. injection Hx as <-.
      split; [done|]. rewrite Hjl in Hy. by injection Hy as <-.
Qed.

Lemma locators_follow_markers_witness :
  ∃ root' live_set' collection entries,
    add_markers_to_ableton_project sample_markers sample_project = (root', inr tt) ∧
    find "LiveSet" root' = Some live_set' ∧
    find "Locators" live_set' = Some collection ∧
    last (children collection) = Some (Elem "Locators" [] None entries) ∧
    length entries = length sample_markers ∧
    (∀ n m b, sample_markers !! n = Some m → [3; 5] !! n = Some b →
       entries !! n =
         Some (Elem "Locator" [("Id", str_of_int (Z.of_nat n + 1))] None
                 [ Elem "LomId" [("Value", "0")] None [];
                   Elem "Time" [("Value", str_of_int ((b - 1) * 4))] None [];
                   Elem "Name" [("Value", format_value (marker m))] None [];
                   Elem "Annotation" [("Value", EmptyString)] None [];
                   Elem "IsSongStart" [("Value", "false")] None [] ]) ∧
       ∀ label, marker m = Some label → format_value (marker m) = label) ∧
    (find "Locators"
       (set_children
          (Elem "LiveSet" [] None
             [ leaf "Tracks"; leaf "ViewStateSessionMixerHeight"; leaf "SomeOtherNode" ])
          (without_stale
             [ leaf "Tracks"; leaf "ViewStateSessionMixerHeight"; leaf "SomeOtherNode" ]))
       = None →
     collection = Elem "Locators" [] None [Elem "Locators" [] None entries]).
Proof.
  apply (locators_follow_markers sample_markers [3; 5] sample_project
           (Elem "LiveSet" [] None
              [ leaf "Tracks"; leaf "ViewStateSessionMixerHeight"; leaf "SomeOtherNode" ])).
  - discriminate.
  - reflexivity.
  - eexists. reflexivity.
  - repeat constructor.
  - vm_compute. reflexivity.
  - repeat constructor; vm_compute; reflexivity.
Defined.

Lemma missing_anchor_nodes_abort_witness :
  (find "LiveSet" (leaf "Ableton") = None →
   add_markers_to_ableton_project sample_markers (leaf "Ableton")
     = (leaf "Ableton", inl AttributeError)) ∧
  (∀ live_set, find "LiveSet" (leaf "Ableton") = Some live_set →
     find "ViewStateSessionMixerHeight" live_set = None →
     ∃ root', add_markers_to_ableton_project sample_markers (leaf "Ableton")
              = (root', inl IndexError)) ∧
  (∀ root' e,
     add_markers_to_ableton_project sample_markers (leaf "Ableton") = (root', inl e) →
     (e = AttributeError ↔ find "LiveSet" (leaf "Ableton") = None) ∧
     (e = IndexError ↔
        ∃ live_set, find "LiveSet" (leaf "Ableton") = Some live_set ∧
                    find "ViewStateSessionMixerHeight" live_set = None)).
Proof.
  apply (missing_anchor_nodes_abort sample_markers (leaf "Ableton")). discriminate.
Defined.

Lemma collection_inserted_after_anchor_witness :
  ∃ i live_set live_set' k anchor node,
    list_find (has_tag "LiveSet") (children sample_project) = Some (i, live_set) ∧
    (add_markers_to_ableton_project sample_markers sample_project).1
      = set_children sample_project (<[i := live_set']> (children sample_project)) ∧
    live_set' = set_children live_set (children live_set') ∧
    list_find (has_tag "ViewStateSessionMixerHeight") (children live_set')
      = Some (k, anchor) ∧
    children live_set' !! S k = Some node ∧
    (node = new_Element "Locators" [] ∨
     ∃ entries, node = Elem "Locators" [] None [Elem "Locators" [] None entries]) ∧
    Forall2 unchanged_or_collection
      (without_stale (children live_set)) (delete (S k) (children live_set')).
Proof.
  apply (collection_inserted_after_anchor sample_markers sample_project).
  vm_compute. reflexivity.
Defined.

(** C3 (the code departs from the claim).  A [Locators] child of [LiveSet]
    that has no children tests false at line 91 and is not removed.  After
    one call on [project_with_childless_collection] the old node is still
    there, next to the new one.  On
    [project_with_leading_childless_collection] the first call fills the old
    node and leaves the node it inserted empty, and after a second call that
    empty node of the first call is still a child of [LiveSet]. *)
Theorem childless_collection_survives :
  add_markers_to_ableton_project [Marker (Some "1") (Some "Intro")]
      project_with_childless_collection =
    (Elem "Ableton" [] None
       [ Elem "LiveSet" [] None
           [ leaf "ViewStateSessionMixerHeight";
             Elem "Locators" [] None [Elem "Locators" [] None [locator_entry 1 0 "Intro"]];
             leaf "Locators";
             leaf "SomeOtherNode" ] ], inr tt) ∧
  add_markers_to_ableton_project [Marker (Some "9") (Some "Outro")]
      (add_markers_to_ableton_project [Marker (Some "1") (Some "Intro")]
         project_with_leading_childless_collection).1 =
    (Elem "Ableton" [] None
       [ Elem "LiveSet" [] None
           [ leaf "ViewStateSessionMixerHeight";
             Elem "Locators" [] None [Elem "Locators" [] None [locator_entry 1 32 "Outro"]];
             leaf "Locators" ] ], inr tt).
Proof. split; vm_compute; reflexivity. Qed.

(** The removal step only looks at the children it leaves. *)
Lemma spliced_without_stale (cs cs' : list Element) (ms : list MarkerRecord) :
  without_stale cs = without_stale cs' → spliced cs ms = spliced cs' ms.
Proof. intros Heq. unfold spliced. by rewrite Heq. Qed.

(** Where the removal step leaves no [Locators] child in [LiveSet] (there was
    none, or a single one that had children), a second call undoes all of
    the first: it ends as if the first had not taken place. *)
Lemma second_application_replaces_first (ms1 ms2 : list MarkerRecord)
    (root root1 live_set : Element) :
  find "LiveSet" root = Some live_set →
  find "Locators" (set_children live_set (without_stale (children live_set))) = None →
  add_markers_to_ableton_project ms1 root = (root1, inr tt) →
  ms2 ≠ [] →
  add_markers_to_ableton_project ms2 root1 = add_markers_to_ableton_project ms2 root.
Proof.
  intros [i Hls]%find_Some_list_find Hnone%find_None_list_find Hrun Hms2.
  simpl in Hnone.
  destruct ms1 as [|m1 ms1]; [done|]. destruct ms2 as [|m2 ms2]; [done|].
  rewrite add_markers_run, Hls in Hrun. rewrite (add_markers_run _ _ root), Hls.
  set (cs1 := without_stale (children live_set)) in *.
  destruct (list_find (has_tag "ViewStateSessionMixerHeight") cs1)
    as [[k a]|] eqn:Hk; [|unfold spliced in Hrun; fold cs1 in Hrun; by rewrite Hk in Hrun].
  destruct (spliced_with_anchor _ (m1 :: ms1) _ _ Hk) as (j & l1 & _ & Hj & Hsp).
  rewrite Hsp in Hrun. cbn [fst snd] in Hrun. injection Hrun as <- _.
  pose proof (proj1 (list_find_Some _ _ _ _) Hk) as (Hka%lookup_lt_Some & _ & _).
  destruct (first_collection_is_new _ _ _ _ Hka Hnone Hj) as [-> ->].
  pose proof (proj1 (list_find_Some _ _ _ _) Hls) as (Hi & Htag & _).
  rewrite add_markers_run. cbn [alter_at children set_children].
  rewrite (list_find_alter_same _ _ _ _ live_set) by done.
  cbn [on_children set_children children].
  set (R := alter _ (S k) _).
  assert (HR : without_stale R = without_stale (children live_set)).
  { fold cs1. unfold without_stale at 1. unfold R.
    rewrite (list_find_alter_same _ _ _ _ (new_Element "Locators" [])) by done.
    simpl truth. cbv iota. rewrite delete_alter_same.
    by rewrite delete_insert_middle. }
  rewrite (spliced_without_stale R (children live_set)) by done.
  f_equal. unfold set_children. cbn [tag attrib text children]. f_equal.
  rewrite list_alter_twice. by apply list_alter_ext.
Qed.

(** ** Marker Extractor *)

Lemma mapM_result_inr {A B} (f : A → Result B) (l : list A) (k : list B) :
  Forall2 (λ x y, f x = inr y) l k → mapM f l = inr k.
Proof.
  induction 1 as [|x y l k Hxy _ IH]; [done|].
  simpl. rewrite Hxy. simpl. rewrite IH. done.
Qed.

Lemma find_head_findall (t : string) (e : Element) :
  find t e = head (findall t e).
Proof.
  unfold find, findall. induction (children e) as [|c cs IH]; [done|].
  rewrite filter_cons. cbn [list_find]. destruct (decide (has_tag t c)); [done|].
  rewrite <- IH. by destruct (list_find (has_tag t) cs) as [[? ?]|].
Qed.

Lemma find_elem_of_findall (t : string) (e x : Element) :
  find t e = Some x → x ∈ findall t e.
Proof.
  rewrite find_head_findall. destruct (findall t e); [done|].
  intros [= ->]. apply list_elem_of_here.
Qed.

(** The measures that the test of line 65 drops have no direction, provided
    a direction always has a [direction-type] child. *)
Lemma falsy_measure_has_no_direction (measure : Element) :
  (∀ direction, direction ∈ findall "direction" measure →
     is_Some (find "direction-type" direction)) →
  truth (find "direction" measure) ≠ true →
  findall "direction" measure = [].
Proof.
  intros Hdt Htruth. destruct (find "direction" measure) as [d|] eqn:Hd.
  - exfalso. apply Htruth. simpl.
    destruct (Hdt d (find_elem_of_findall _ _ _ Hd)) as [dt Hfound].
    apply find_elem_of_findall in Hfound. unfold findall in Hfound.
    apply list_elem_of_filter in Hfound as [_ Hin].
    case_bool_decide as Hnil; [|done]. rewrite Hnil in Hin. by apply elem_of_nil in Hin.
  - rewrite find_head_findall in Hd. by destruct (findall "direction" measure).
Qed.

(** The comprehension of lines 66-69 yields the contributed rehearsal
    nodes, none of them [None]. *)
Lemma rehearsals_of_measure_run (measure : Element) :
  (∀ direction, direction ∈ findall "direction" measure →
     is_Some (find "direction-type" direction)) →
  rehearsals_of_measure measure =
    inr (Some <$> omap rehearsal_of_direction (findall "direction" measure)).
Proof.
  intros Hdt. unfold rehearsals_of_measure.
  rewrite (mapM_result_inr _ _
             ((λ d, option_list (Some <$> rehearsal_of_direction d))
                <$> findall "direction" measure)).
  - cbn [fmap result_fmap]. f_equal.
    induction (findall "direction" measure) as [|d ds IH]; [done|].
    cbn [fmap list_fmap concat omap]. rewrite IH.
    * simpl. by destruct (rehearsal_of_direction d).
    * intros d' Hd'. apply Hdt. by apply list_elem_of_further.
  - apply Forall2_fmap_r, Forall_Forall2_diag, Forall_forall.
    intros d Hd. destruct (Hdt d Hd) as [dt Hfound].
    cbn. unfold rehearsal_of_direction. rewrite !Hfound. cbn.
    rewrite !(find_head_findall "rehearsal" dt).
    by destruct (findall "rehearsal" dt).
Qed.

Lemma markers_of_measure_run (measure : Element) :
  (∀ direction, direction ∈ findall "direction" measure →
     is_Some (find "direction-type" direction)) →
  markers_of_measure measure = inr (records_of_measure measure).
Proof.
  intros Hdt. unfold markers_of_measure, records_of_measure.
  rewrite rehearsals_of_measure_run by done. cbn [mbind result_bind].
  apply mapM_result_inr. clear Hdt.
  induction (findall "direction" measure) as [|d ds IH]; [constructor|].
  simpl. destruct (rehearsal_of_direction d) as [r|]; simpl; [|exact IH].
  by constructor.
Qed.

(** Lines 63-72 on a tree with a part in which every direction has a
    [direction-type] child. *)
Lemma markers_of_tree_run (tree part : Element) :
  find "part" tree = Some part →
  directions_have_type part →
  markers_of_tree tree = inr (records_of_part part).
Proof.
  intros Hpart Hdt. unfold markers_of_tree, records_of_part. rewrite Hpart.
  assert (∀ measure direction,
            measure ∈ findall "measure" part →
            direction ∈ findall "direction" measure →
            is_Some (find "direction-type" direction)) as Hdt'.
  { intros measure direction Hm Hd. unfold directions_have_type in Hdt.
    rewrite Forall_forall in Hdt. specialize (Hdt _ Hm).
    rewrite Forall_forall in Hdt. by apply Hdt. }
  clear Hdt. rename Hdt' into Hdt.
  cbn [deref mbind result_bind].
  rewrite (mapM_result_inr _ _
    (records_of_measure <$>
       filter (λ measure, truth (find "direction" measure) = true)
         (findall "measure" part))).
  - cbn [fmap result_fmap]. f_equal.
    induction (findall "measure" part) as [|m ms IH]; [done|].
    rewrite filter_cons. cbn [mbind list_bind].
    rewrite <- IH by (intros; eapply Hdt; [by apply list_elem_of_further | done]).
    case_decide as Htruth; [done|].
    unfold records_of_measure at 2.
    rewrite falsy_measure_has_no_direction; [done| |done].
    intros d Hd. eapply Hdt; [apply list_elem_of_here | done].
  - apply Forall2_fmap_r, Forall_Forall2_diag, Forall_forall.
    intros m [_ Hm]%list_elem_of_filter. apply markers_of_measure_run.
    intros d Hd. by eapply Hdt.
Qed.

Lemma elem_of_records_of_part (part : Element) (r : MarkerRecord) :
  r ∈ records_of_part part ↔
  ∃ measure direction rehearsal,
    measure ∈ findall "measure" part ∧
    direction ∈ findall "direction" measure ∧
    rehearsal_of_direction direction = Some rehearsal ∧
    r = Marker (get "number" (attrib measure)) (text rehearsal).
Proof.
  unfold records_of_part, records_of_measure.
  rewrite list_elem_of_bind. split.
  - intros (measure & Hr & Hm). apply list_elem_of_omap in Hr as (d & Hd & Hr).
    apply fmap_Some in Hr as (rehearsal & Hreh & ->). by exists measure, d, rehearsal.
  - intros (measure & d & rehearsal & Hm & Hd & Hreh & ->).
    exists measure. split; [|done]. apply list_elem_of_omap. exists d.
    split; [done|]. by rewrite Hreh.
Qed.

Lemma find_Name_of_entry (id time : Z) (name : string) :
  find "Name" (locator_entry id time name) = Some (value_element "Name" name).
Proof. done. Qed.

Lemma bars_of_timed_records (ms : list MarkerRecord) :
  Forall time_is_defined ms →
  ∃ bars, Forall2 (λ m b, py_int (bar m) = inr b) ms bars ∧
          Forall (λ b, within_str_digits ((b - 1) * 4)) bars.
Proof.
  induction 1 as [|m ms (b & Hb & Htime) _ (bars & IH & IHtimes)]; [by exists []|].
  exists (b :: bars). split; by constructor.
Qed.

Lemma rejected_bar_is_no_integer (r : MarkerRecord) :
  bar_is_rejected r → ¬ bar_is_integer r.
Proof.
  unfold bar_is_rejected, bar_is_integer. destruct (bar r) as [s|].
  - intros [_ Hs] [b Hb]. by rewrite Hs in Hb.
  - by intros _ [b Hb].
Qed.

(** A record whose bar is not an integer makes the call fail, whatever the
    tree; where the tree has [LiveSet] and the anchor, the exception is a
    [TypeError] or a [ValueError], raised by the argument of line 106 (or
    of line 104) for that record or for one before it. *)
Lemma add_markers_bad_bar (ms : list MarkerRecord) (root : Element) :
  Exists (λ r, ¬ bar_is_integer r) ms →
  ∃ root' e,
    add_markers_to_ableton_project ms root = (root', inl e) ∧
    (∀ live_set, find "LiveSet" root = Some live_set →
       is_Some (find "ViewStateSessionMixerHeight" live_set) →
       e = TypeError ∨ e = ValueError).
Proof.
  intros Hbad.
  assert (Hex : Exists (λ m, ∃ e, py_int (bar m) = inl e) ms).
  { eapply Exists_impl; [done|]. intros r Hr. unfold bar_is_integer in Hr.
    destruct (py_int (bar r)) as [e|b]; [by exists e | exfalso; apply Hr; by exists b]. }
  destruct ms as [|m ms]; [by apply Exists_nil in Hbad|].
  destruct (locator_elements_fails _ 0 Hex) as [e He].
  rewrite add_markers_run.
  destruct (list_find (has_tag "LiveSet") (children root)) as [[i ls]|] eqn:Hls.
  - assert (Hfind : find "LiveSet" root = Some ls)
      by (apply find_Some_list_find; by exists i).
    destruct (list_find (has_tag "ViewStateSessionMixerHeight")
                (without_stale (children ls))) as [[k a]|] eqn:Hk.
    + destruct (spliced_with_anchor _ (m :: ms) _ _ Hk) as (j & l1 & _ & _ & ->).
      cbn [fst snd]. rewrite He. eexists _, e. split; [done|].
      intros _ _ _. by eapply locator_elements_error.
    + unfold spliced. rewrite Hk. eexists _, _. split; [done|].
      intros ls' Hls' Hanchor. rewrite Hfind in Hls'. injection Hls' as <-.
      apply find_is_Some_without_stale in Hanchor; [|done].
      rewrite Hk in Hanchor. by destruct Hanchor.
  - eexists _, _. split; [done|]. intros ls' Hls'.
    apply find_Some_list_find in Hls' as [? Hls']. by rewrite Hls in Hls'.
Qed.

Lemma omap_as_bind {A B} (f : A → option B) (g : A → list B) (l : list A) :
  Forall (λ x, option_list (f x) = g x) l → omap f l = l ≫= g.
Proof.
  induction 1 as [|x l Hx _ IH]; [done|].
  cbn. rewrite <- Hx, <- IH. by destruct (f x).
Qed.

(** In the notation format the records of a part are one for every
    [rehearsal] node, as the specification words them, and every direction
    has its [direction-type] child. *)
Lemma records_in_notation_format (part : Element) :
  in_notation_format part →
  directions_have_type part ∧ records_of_part part = stated_records_of_part part.
Proof.
  unfold in_notation_format, directions_have_type, records_of_part,
    stated_records_of_part.
  induction (findall "measure" part) as [|measure measures IH]; [done|].
  intros [Hm Hms]%Forall_cons. destruct (IH Hms) as [IHdt IHrec]. split.
  - constructor; [|done]. eapply Forall_impl; [exact Hm|].
    intros direction (dt & Hdt & _). rewrite find_head_findall, Hdt. by eexists.
  - cbn [mbind list_bind]. rewrite <- IHrec. f_equal.
    unfold records_of_measure. apply omap_as_bind.
    eapply Forall_impl; [exact Hm|].
    intros direction (dt & Hdt & Hreh). unfold rehearsal_of_direction.
    rewrite (find_head_findall "direction-type"), Hdt.
    cbn [head mbind option_bind list_bind app].
    rewrite (find_head_findall "rehearsal").
    destruct (findall "rehearsal" dt) as [|r [|r' rs]]; [done|done|].
    cbn in Hreh. lia.
Qed.

(** ** Marker Extractor: the claims *)

Lemma extract_marker_run (xml_parse : list byte → Result Element)
    (fs : gmap string (list byte)) (gp_xml_file : string) (data : list byte)
    (tree part : Element) :
  fs !! gp_xml_file = Some data →
  xml_parse data = inr tree →
  find "part" tree = Some part →
  directions_have_type part →
  extract_marker_from_gp_xml xml_parse fs gp_xml_file = inr (records_of_part part).
Proof.
  intros Hfile Hparse Hpart Hdt. unfold extract_marker_from_gp_xml, isfile.
  rewrite Hfile, bool_decide_eq_true_2 by done. cbn [default from_option id].
  rewrite Hparse. cbn [mbind result_bind]. by apply markers_of_tree_run.
Qed.

(** C2.  For an existing notation file that parses to a tree with a part
    in which every direction of every measure has a [direction-type] child,
    as the notation format has it, the extraction returns the records of
    the part: for each measure in document order and each of its directions
    in order whose [direction-type] child has a [rehearsal] child, exactly
    one record, made of the measure's [number] attribute and the text of
    that [rehearsal] child; a measure gives as many records as it has such
    directions.  In the notation format, where a [direction-type] has at
    most one [rehearsal] child, these are the records of the specification,
    one for every [rehearsal] node. *)
Theorem markers_follow_directions (xml_parse : list byte → Result Element)
    (fs : gmap string (list byte)) (gp_xml_file : string) (data : list byte)
    (tree part : Element) :
  fs !! gp_xml_file = Some data →
  xml_parse data = inr tree →
  find "part" tree = Some part →
  directions_have_type part →
  extract_marker_from_gp_xml xml_parse fs gp_xml_file = inr (records_of_part part) ∧
  records_of_part part =
    concat ((λ measure,
               omap (λ direction,
                       (λ rehearsal,
                          Marker (get "number" (attrib measure)) (text rehearsal))
                         <$> (find "direction-type" direction ≫= find "rehearsal"))
                    (findall "direction" measure))
              <$> findall "measure" part) ∧
  (in_notation_format part →
   extract_marker_from_gp_xml xml_parse fs gp_xml_file = inr (stated_records tree)).
Proof.
  intros Hfile Hparse Hpart Hdt.
  assert (Hrun : extract_marker_from_gp_xml xml_parse fs gp_xml_file
                 = inr (records_of_part part)) by by eapply extract_marker_run.
  split; [done|]. split.
  - unfold records_of_part. clear.
    induction (findall "measure" part) as [|m ms IH]; [done|].
    cbn [mbind list_bind fmap list_fmap concat]. by rewrite <- IH.
  - intros [_ Hformat]%records_in_notation_format.
    rewrite Hrun, Hformat. unfold stated_records. rewrite Hpart.
    f_equal. simpl. by rewrite app_nil_r.
Qed.

Lemma markers_follow_directions_witness :
  extract_marker_from_gp_xml (parsed_as sample_score) disk_with_score "song.xml"
    = inr [Marker (Some "3") (Some "Chorus")].
Proof.
  refine (proj1 (markers_follow_directions (parsed_as sample_score) disk_with_score
                   "song.xml" [] sample_score
                   (Elem "part" [("id", "P1")] None
                      [ Elem "measure" [("number", "1")] None [leaf "attributes"; leaf "note"];
                        Elem "measure" [("number", "3")] None
                          [ Elem "direction" [] None
                              [Elem "direction-type" [] None
                                 [Elem "rehearsal" [] (Some "Chorus") []]];
                            leaf "note" ] ]) _ _ _ _)).
  - reflexivity.
  - reflexivity.
  - reflexivity.
  - apply (bool_decide_unpack _). vm_compute. exact I.
Defined.

(** Outside the notation format the extraction goes by the first
    [rehearsal] child of the first [direction-type] child: a
    [direction-type] with two [rehearsal] nodes gives one record, for the
    first of them, and not one for each; and a direction without
    [direction-type] child makes the extraction raise [AttributeError]. *)
Lemma second_mark_of_a_direction_is_dropped :
  extract_marker_from_gp_xml (parsed_as score_with_two_marks) disk_with_score "song.xml"
    = inr [Marker (Some "3") (Some "Verse")] ∧
  stated_records score_with_two_marks =
    [Marker (Some "3") (Some "Verse"); Marker (Some "3") (Some "Chorus")] ∧
  extract_marker_from_gp_xml (parsed_as score_with_two_marks) disk_with_score "song.xml"
    ≠ inr (stated_records score_with_two_marks) ∧
  extract_marker_from_gp_xml (parsed_as score_with_untyped_direction) disk_with_score
    "song.xml" = inl AttributeError ∧
  stated_records score_with_untyped_direction = [].
Proof. split_and!; [done | done | discriminate | done | done]. Qed.

(** C9.  A rehearsal node without text gives a record whose marker is
    [None], and the locator that the splicer then writes for that record has
    the [Name] child with [Value="None"]: the extraction succeeds and its
    result has such a record at some position [n]; spliced into a tree with
    [LiveSet] and the anchor, the records give a nested collection whose
    [n]-th entry has that [Name] child.  The splicer gets that far for
    records that it can convert: [int()] accepts every bar, and the number
    of records and the times are within the digit limit of the
    formatting. *)
Theorem missing_text_is_written_as_None (xml_parse : list byte → Result Element)
    (fs : gmap string (list byte)) (gp_xml_file : string) (data : list byte)
    (tree part measure direction rehearsal root live_set : Element) :
  fs !! gp_xml_file = Some data →
  xml_parse data = inr tree →
  find "part" tree = Some part →
  directions_have_type part →
  measure ∈ findall "measure" part →
  direction ∈ findall "direction" measure →
  rehearsal_of_direction direction = Some rehearsal →
  text rehearsal = None →
  Forall time_is_defined (records_of_part part) →
  within_str_digits (Z.of_nat (length (records_of_part part))) →
  find "LiveSet" root = Some live_set →
  is_Some (find "ViewStateSessionMixerHeight" live_set) →
  ∃ records n root' live_set' collection nested entry,
    extract_marker_from_gp_xml xml_parse fs gp_xml_file = inr records ∧
    records !! n = Some (Marker (get "number" (attrib measure)) None) ∧
    add_markers_to_ableton_project records root = (root', inr tt) ∧
    find "LiveSet" root' = Some live_set' ∧
    find "Locators" live_set' = Some collection ∧
    last (children collection) = Some nested ∧
    children nested !! n = Some entry ∧
    find "Name" entry = Some (Elem "Name" [("Value", "None")] None []) ∧
    format_value None ≠ EmptyString.
Proof.
  intros Hfile Hparse Hpart Hdt Hm Hd Hreh Htext Hbars Hids Hls Hanchor.
  assert (Hin : Marker (get "number" (attrib measure)) None ∈ records_of_part part).
  { apply elem_of_records_of_part. exists measure, direction, rehearsal.
    by rewrite Htext. }
  apply list_elem_of_lookup in Hin as [n Hn].
  destruct (bars_of_timed_records _ Hbars) as (bars & Hbars2 & Htimes).
  assert (Hne : records_of_part part ≠ []) by (intros Hnil; by rewrite Hnil in Hn).
  destruct (created_collection _ bars root live_set Hne Hls Hanchor Hbars2 Hids Htimes)
    as (root' & live_set' & collection & Hrun & Hls' & Hcoll & Hlast & _ & _).
  destruct (Forall2_lookup_l _ _ _ _ _ Hbars2 Hn) as (b & Hb & _).
  exists (records_of_part part), n, root', live_set', collection.
  eexists _, _. split; [by eapply extract_marker_run|].
  split; [done|]. split; [done|]. split; [done|]. split; [done|].
  split; [exact Hlast|]. split; [by apply lookup_expected_locators|].
  split; [apply find_Name_of_entry | done].
Qed.

(** C10.  The extraction does not look at the [number] attributes: under the
    same conditions on the tree as before, and none on the attributes, it
    succeeds and returns the records of the part, which are made from the
    marks alone: every mark of every measure has its record in the result,
    with the attribute of the measure as [get] returns it, a string or
    [None], for bar, and no record has another bar.  The conversion is the
    splicer's: if the bar of some record is missing, or is an ASCII string
    that [int()] rejects, splicing the records fails on every tree, and
    where the tree has [LiveSet] and the anchor the exception is the
    [TypeError] or the [ValueError] of line 106. *)
Theorem bar_is_converted_when_splicing (xml_parse : list byte → Result Element)
    (fs : gmap string (list byte)) (gp_xml_file : string) (data : list byte)
    (tree part root : Element) :
  fs !! gp_xml_file = Some data →
  xml_parse data = inr tree →
  find "part" tree = Some part →
  directions_have_type part →
  extract_marker_from_gp_xml xml_parse fs gp_xml_file = inr (records_of_part part) ∧
  (∀ measure direction rehearsal,
     measure ∈ findall "measure" part →
     direction ∈ findall "direction" measure →
     rehearsal_of_direction direction = Some rehearsal →
     Marker (get "number" (attrib measure)) (text rehearsal) ∈ records_of_part part) ∧
  (∀ r, r ∈ records_of_part part →
     ∃ measure, measure ∈ findall "measure" part ∧
                bar r = get "number" (attrib measure)) ∧
  (Exists bar_is_rejected (records_of_part part) →
   ∃ root' e,
     add_markers_to_ableton_project (records_of_part part) root = (root', inl e) ∧
     (∀ live_set, find "LiveSet" root = Some live_set →
        is_Some (find "ViewStateSessionMixerHeight" live_set) →
        e = TypeError ∨ e = ValueError)).
Proof.
  intros Hfile Hparse Hpart Hdt.
  split; [by eapply extract_marker_run|]. split.
  { intros measure direction rehearsal Hm Hd Hreh.
    apply elem_of_records_of_part. by exists measure, direction, rehearsal. }
  split.
  { intros r (m & d & reh & Hm & _ & _ & ->)%elem_of_records_of_part. by exists m. }
  intros Hbad. apply add_markers_bad_bar.
  eapply Exists_impl; [exact Hbad|]. apply rejected_bar_is_no_integer.
Qed.

Lemma missing_text_is_written_as_None_witness :
  ∃ records n root' live_set' collection nested entry,
    extract_marker_from_gp_xml (parsed_as score_with_unnamed_mark) disk_with_score
      "song.xml" = inr records ∧
    records !! n = Some (Marker (Some "2") None) ∧
    add_markers_to_ableton_project records sample_project = (root', inr tt) ∧
    find "LiveSet" root' = Some live_set' ∧
    find "Locators" live_set' = Some collection ∧
    last (children collection) = Some nested ∧
    children nested !! n = Some entry ∧
    find "Name" entry = Some (Elem "Name" [("Value", "None")] None []) ∧
    format_value None ≠ EmptyString.
Proof.
  apply (missing_text_is_written_as_None
           (parsed_as score_with_unnamed_mark) disk_with_score "song.xml" []
           score_with_unnamed_mark
           (Elem "part" [("id", "P1")] None
              [marked_measure [("number", "2")] (leaf "rehearsal")])
           (marked_measure [("number", "2")] (leaf "rehearsal"))
           (Elem "direction" [] None [Elem "direction-type" [] None [leaf "rehearsal"]])
           (leaf "rehearsal")
           sample_project
           (Elem "LiveSet" [] None
              [ leaf "Tracks"; leaf "ViewStateSessionMixerHeight"; leaf "SomeOtherNode" ])).
  - reflexivity.
  - reflexivity.
  - reflexivity.
  - apply (bool_decide_unpack _). vm_compute. exact I.
  - apply list_elem_of_here.
  - apply list_elem_of_here.
  - reflexivity.
  - reflexivity.
  - repeat constructor. exists 2. split; [reflexivity | vm_compute; reflexivity].
  - vm_compute. reflexivity.
  - reflexivity.
  - eexists. reflexivity.
Defined.

Lemma bar_is_converted_when_splicing_witness :
  extract_marker_from_gp_xml (parsed_as score_without_number) disk_with_score "song.xml"
    = inr [Marker None (Some "Intro")] ∧
  (∀ measure direction rehearsal,
     measure ∈ [marked_measure [] (Elem "rehearsal" [] (Some "Intro") [])] →
     direction ∈ findall "direction" measure →
     rehearsal_of_direction direction = Some rehearsal →
     Marker (get "number" (attrib measure)) (text rehearsal)
       ∈ [Marker None (Some "Intro")]) ∧
  (∀ r, r ∈ [Marker None (Some "Intro")] →
     ∃ measure, measure ∈ [marked_measure [] (Elem "rehearsal" [] (Some "Intro") [])] ∧
                bar r = get "number" (attrib measure)) ∧
  (Exists bar_is_rejected [Marker None (Some "Intro")] →
   ∃ root' e,
     add_markers_to_ableton_project [Marker None (Some "Intro")] sample_project
       = (root', inl e) ∧
     (∀ live_set, find "LiveSet" sample_project = Some live_set →
        is_Some (find "ViewStateSessionMixerHeight" live_set) →
        e = TypeError ∨ e = ValueError)).
Proof.
  refine (bar_is_converted_when_splicing
            (parsed_as score_without_number) disk_with_score "song.xml" []
            score_without_number
            (Elem "part" [("id", "P1")] None
               [marked_measure [] (Elem "rehearsal" [] (Some "Intro") [])])
            sample_project _ _ _ _).
  - reflexivity.
  - reflexivity.
  - reflexivity.
  - apply (bool_decide_unpack _). vm_compute. exact I.
Defined.

(** ** Strings and bytes *)

Lemma string_app_cons (c : ascii) (s t : string) :
  String c s +:+ t = String c (s +:+ t).
Proof. reflexivity. Qed.

Lemma string_app_nil_l (t : string) : EmptyString +:+ t = t.
Proof. reflexivity. Qed.

Lemma string_app_length (s1 s2 : string) :
  String.length (s1 +:+ s2) = (String.length s1 + String.length s2)%nat.
Proof.
  induction s1 as [|c s1 IH]; [done|].
  rewrite string_app_cons. cbn [String.length]. by rewrite IH.
Qed.

Lemma string_app_inv_head (s s1 s2 : string) : s +:+ s1 = s +:+ s2 → s1 = s2.
Proof.
  induction s as [|c s IH]; [done|]. rewrite !string_app_cons.
  intros [= H]. by apply IH.
Qed.

Lemma endswith_spec (s suffix : string) :
  endswith s suffix = true ↔ ∃ base, s = base +:+ suffix.
Proof.
  induction s as [|c s IH]; cbn [endswith].
  - rewrite orb_false_r, String.eqb_eq. split.
    + intros <-. exists EmptyString. reflexivity.
    + intros [[|? ?] Hb]; [by rewrite string_app_nil_l in Hb |
                           by rewrite string_app_cons in Hb].
  - rewrite orb_true_iff, String.eqb_eq, IH. split.
    + intros [<-|[base ->]];
        [exists EmptyString; reflexivity | exists (String c base); reflexivity].
    + intros [[|c' base] Hb]; [left; by rewrite string_app_nil_l in Hb|].
      rewrite string_app_cons in Hb. injection Hb as -> ->. right. by exists base.
Qed.

(** [int()] and [str()] on some values. *)
Lemma py_int_examples :
  py_int (Some "3") = inr 3 ∧
  py_int (Some " 12 ") = inr 12 ∧
  py_int (Some "1_000") = inr 1000 ∧
  py_int (Some "-2") = inr (-2) ∧
  py_int (Some "3a") = inl ValueError ∧
  py_int (Some (String "028" "5")) = inl ValueError ∧
  py_int (Some (String "009" "5")) = inr 5 ∧
  py_int (Some "1__0") = inl ValueError ∧
  py_int (Some EmptyString) = inl ValueError ∧
  py_int None = inl TypeError ∧
  str_of_int ((5 - 1) * 4) = "16" ∧
  str_of_int ((0 - 1) * 4) = "-4".
Proof. by split_and!. Qed.

(** The path with the extension, and its part before the extension. *)
Lemma add_als_extension_spec (als_file : string) :
  (endswith als_file ".als" = true ∧
   add_als_extension_if_it_is_not_set als_file = als_file) ∨
  (endswith als_file ".als" = false ∧
   add_als_extension_if_it_is_not_set als_file = als_file +:+ ".als").
Proof.
  unfold add_als_extension_if_it_is_not_set.
  destruct (endswith als_file ".als"); [by left | by right].
Qed.

Lemma add_als_extension_base (als_file : string) :
  ∃ base, add_als_extension_if_it_is_not_set als_file = base +:+ ".als".
Proof.
  destruct (add_als_extension_spec als_file) as [[Hends ->]|[_ ->]].
  - by apply endswith_spec.
  - by exists als_file.
Qed.

Lemma occurrences_extension (base : string) :
  (1 ≤ occurrences ".als" (base +:+ ".als"))%nat.
Proof.
  induction base as [|c base IH]; [vm_compute; lia|].
  rewrite string_app_cons. cbn [occurrences]. lia.
Qed.

(** Where [".als"] occurs in the path only as its last four characters,
    [replace] removes just the extension. *)
Lemma replace_final_extension (base : string) :
  occurrences ".als" (base +:+ ".als") = 1%nat →
  replace (base +:+ ".als") ".als" EmptyString = base.
Proof.
  unfold replace. induction base as [|c base IH]; intros Honce; [done|].
  rewrite string_app_cons in Honce |- *. cbn [replace_from occurrences] in Honce |- *.
  pose proof (occurrences_extension base).
  destruct (String.prefix ".als" (String c (base +:+ ".als"))); [lia|].
  f_equal. apply IH. lia.
Qed.

Lemma app_old_neq_base (base : string) : base +:+ "_old.als" ≠ base.
Proof.
  intros Heq. apply (f_equal String.length) in Heq.
  rewrite string_app_length in Heq. cbn [String.length] in Heq. lia.
Qed.

Lemma app_als_neq_base (base : string) : base +:+ ".als" ≠ base.
Proof.
  intros Heq. apply (f_equal String.length) in Heq.
  rewrite string_app_length in Heq. cbn [String.length] in Heq. lia.
Qed.

Lemma app_old_neq_app_als (base : string) : base +:+ "_old.als" ≠ base +:+ ".als".
Proof. intros Heq%string_app_inv_head. discriminate. Qed.

Lemma app_als_neq_empty (base : string) : base +:+ ".als" ≠ EmptyString.
Proof.
  intros Heq. apply (f_equal String.length) in Heq.
  rewrite string_app_length in Heq. cbn [String.length] in Heq. lia.
Qed.

Lemma hexlify_magic (data : list byte) :
  String.eqb (hexlify (take 2 data)) "1f8b" = true ↔ take 2 data = [x1f; x8b].
Proof.
  rewrite String.eqb_eq.
  destruct data as [|a [|b rest]]; [done | split; [|done] | cbn [take]].
  { cbn [take hexlify]. intros [= _ _ ?]. }
  split; [|by intros [= -> ->]].
  cbn [hexlify]. intros [= Ha1 Ha2 Hb1 Hb2].
  assert (a = x1f) as -> by (clear Hb1 Hb2; destruct a; vm_compute in Ha1, Ha2; congruence).
  assert (b = x8b) as -> by (clear Ha1 Ha2; destruct b; vm_compute in Hb1, Hb2; congruence).
  done.
Qed.

(** ** Project Store Adapter: the claims *)

(** C6.  Loading fails with [FileNotFoundError] when the path, with the
    extension appended if it was missing, names no file, and with the
    exception of line 43 when the file exists and its first two bytes are
    not [1f 8b].  Both hold for every decompressor and every parser: the
    file is not handed to them, so nothing is tried on a file that is not
    compressed. *)
Theorem load_rejects_missing_and_uncompressed
    (gzip_decompress : list byte → Result (list byte))
    (xml_fromstring : list byte → Result Element)
    (fs : gmap string (list byte)) (als_file : string) :
  let path := add_als_extension_if_it_is_not_set als_file in
  ((∃ base, als_file = base +:+ ".als") → path = als_file) ∧
  ((¬ ∃ base, als_file = base +:+ ".als") → path = als_file +:+ ".als") ∧
  (fs !! path = None →
   extract_xml_from_ableton_project gzip_decompress xml_fromstring fs als_file =
     inl (FileNotFoundError ("The Ableton project " +:+ path +:+ " does not exist"))) ∧
  (∀ data, fs !! path = Some data → take 2 data ≠ [x1f; x8b] →
   extract_xml_from_ableton_project gzip_decompress xml_fromstring fs als_file =
     inl (Exception "Nothing to do here")).
Proof.
  intros path. split_and!.
  - intros Hends%endswith_spec. unfold path, add_als_extension_if_it_is_not_set.
    by rewrite Hends.
  - intros Hends. unfold path, add_als_extension_if_it_is_not_set.
    destruct (endswith als_file ".als") eqn:He; [|done].
    by apply endswith_spec in He.
  - intros Hnone. unfold extract_xml_from_ableton_project, isfile. fold path.
    rewrite Hnone, bool_decide_eq_false_2; [done|]. by intros [? ?].
  - intros data Hdata Hmagic. unfold extract_xml_from_ableton_project, isfile.
    fold path. rewrite Hdata, bool_decide_eq_true_2 by done.
    cbn [default from_option id].
    destruct (String.eqb (hexlify (take 2 data)) "1f8b") eqn:Hhex; [|done].
    by apply hexlify_magic in Hhex.
Qed.

Lemma load_rejects_missing_and_uncompressed_witness :
  extract_xml_from_ableton_project unstored (parsed_as sample_project)
    disk_with_plain_file "other" =
    inl (FileNotFoundError "The Ableton project other.als does not exist") ∧
  extract_xml_from_ableton_project unstored (parsed_as sample_project)
    disk_with_plain_file "song" = inl (Exception "Nothing to do here").
Proof.
  split.
  - apply (load_rejects_missing_and_uncompressed unstored (parsed_as sample_project)
             disk_with_plain_file "other"). reflexivity.
  - apply (load_rejects_missing_and_uncompressed unstored (parsed_as sample_project)
             disk_with_plain_file "song" ) with (data := [x3c; x3f; x78; x6d; x6c]).
    + reflexivity.
    + discriminate.
Defined.

Lemma shutil_move_run (src dst : string) (fs : file_system) (data : list byte) :
  files fs !! src = Some data →
  shutil_move src dst fs =
    (FS (<[dst := data]> (delete src (files fs))) (events fs ++ [Moved src dst]), inr tt).
Proof. intros Hsrc. unfold shutil_move. by rewrite Hsrc. Qed.

Lemma write_file_run (path : string) (data : list byte) (fs : file_system) :
  path ≠ EmptyString →
  write_file path data fs =
    (FS (<[path := data]> (files fs)) (events fs ++ [Written path]), inr tt).
Proof. intros Hpath. unfold write_file. by rewrite decide_False. Qed.

Lemma read_file_run (path : string) (fs : file_system) (data : list byte) :
  files fs !! path = Some data → read_file path fs = (fs, inr data).
Proof. intros Hpath. unfold read_file. by rewrite Hpath. Qed.

Lemma os_remove_run (path : string) (fs : file_system) (data : list byte) :
  files fs !! path = Some data →
  os_remove path fs = (FS (delete path (files fs)) (events fs ++ [Removed path]), inr tt).
Proof. intros Hpath. unfold os_remove. by rewrite Hpath. Qed.

(** C5 (as amended).  For a path in which [".als"] occurs only as the final
    extension (after the extension was appended if missing), the backup
    path is the name with ["_old"] before the extension.  If the project
    file does not exist the move raises [FileNotFoundError] and nothing has
    been done.  If it exists, the move to the backup path is the first
    effect on the file system, whether or not a file was already there, and
    at the end the backup holds the content the project file had; with a
    non-empty name the run then completes: the tree is written to the name
    without extension, compressed into the project path, and the
    uncompressed file is removed. *)
Theorem backup_is_the_first_effect
    (gzip_compress : string → list byte → list byte)
    (xml_indent : Element → Element) (xml_write : Element → list byte)
    (als_file base : string) (tree : Element) (fs : file_system) :
  add_als_extension_if_it_is_not_set als_file = base +:+ ".als" →
  occurrences ".als" (base +:+ ".als") = 1%nat →
  let path := base +:+ ".als" in
  let backup := base +:+ "_old.als" in
  (files fs !! path = None →
   replace_ableton_project gzip_compress xml_indent xml_write als_file tree fs =
     (fs, inl (FileNotFoundError path))) ∧
  (∀ data, files fs !! path = Some data →
   ∃ fs' r later,
     replace_ableton_project gzip_compress xml_indent xml_write als_file tree fs =
       (fs', r) ∧
     events fs' = events fs ++ Moved path backup :: later ∧
     files fs' !! backup = Some data ∧
     (base ≠ EmptyString →
      r = inr tt ∧
      later = [ Printed ("'" +:+ path +:+ "' is now in '" +:+ base +:+ "_old.als'");
                Written base; Written path;
                Printed ("New Ableton project created in '" +:+ path +:+ "'");
                Removed base ] ∧
      files fs' !! path = Some (gzip_compress base (xml_write (xml_indent tree))) ∧
      files fs' !! base = None)).
Proof.
  intros Hext Honly path backup. unfold replace_ableton_project.
  rewrite Hext, replace_final_extension by done. fold path backup. split.
  - intros Hnone. rewrite bind_run. unfold shutil_move. by rewrite Hnone.
  - intros data Hdata.
    rewrite bind_run, (shutil_move_run _ _ _ data) by done.
    rewrite bind_run. unfold print at 1, modify_state at 1, record_event at 1.
    cbn [files events].
    destruct (decide (base = EmptyString)) as [->|Hbase].
    + rewrite bind_run. unfold write_file at 1. rewrite decide_True by done.
      eexists _, _, _. split; [done|]. cbn [files events].
      split; [by rewrite <- app_assoc|].
      split; [by rewrite lookup_insert_eq | done].
    + rewrite bind_run, write_file_run by done. cbn [files events].
      rewrite bind_run, (read_file_run _ _ (xml_write (xml_indent tree)))
        by (cbn [files]; by rewrite lookup_insert_eq).
      rewrite bind_run, write_file_run by apply app_als_neq_empty.
      cbn [files events].
      rewrite bind_run. unfold print at 1, modify_state at 1, record_event at 1.
      cbn [files events].
      rewrite (os_remove_run _ _ (xml_write (xml_indent tree))).
      2:{ cbn [files]. rewrite lookup_insert_ne by apply app_als_neq_base.
          by rewrite lookup_insert_eq. }
      eexists _, _, _. split; [done|]. cbn [files events]. split.
      { rewrite <- !app_assoc. done. }
      split.
      { rewrite lookup_delete_ne by (symmetry; apply app_old_neq_base).
        rewrite lookup_insert_ne by (symmetry; apply app_old_neq_app_als).
        rewrite lookup_insert_ne by (symmetry; apply app_old_neq_base).
        by rewrite lookup_insert_eq. }
      intros _. split; [done|]. split; [done|]. split.
      * rewrite lookup_delete_ne by (symmetry; apply app_als_neq_base).
        by rewrite lookup_insert_eq.
      * by rewrite lookup_delete_eq.
Qed.

Lemma backup_is_the_first_effect_witness :
  (files disk_with_backup !! "song.als" = None →
   replace_ableton_project stored not_reindented no_bytes "song" sample_project
     disk_with_backup = (disk_with_backup, inl (FileNotFoundError "song.als"))) ∧
  (∀ data, files disk_with_backup !! "song.als" = Some data →
   ∃ fs' r later,
     replace_ableton_project stored not_reindented no_bytes "song" sample_project
       disk_with_backup = (fs', r) ∧
     events fs' = events disk_with_backup ++ Moved "song.als" "song_old.als" :: later ∧
     files fs' !! "song_old.als" = Some data ∧
     ("song" ≠ EmptyString →
      r = inr tt ∧
      later = [ Printed "'song.als' is now in 'song_old.als'";
                Written "song"; Written "song.als";
                Printed "New Ableton project created in 'song.als'";
                Removed "song" ] ∧
      files fs' !! "song.als" = Some (stored "song" (no_bytes (not_reindented sample_project))) ∧
      files fs' !! "song" = None)).
Proof.
  apply (backup_is_the_first_effect stored not_reindented no_bytes "song" "song"
           sample_project disk_with_backup).
  - reflexivity.
  - reflexivity.
Defined.

(** C5, as stated, fails: with a file already at the backup path the save
    does not raise; it completes, and the backup path then holds the
    content of the project file in place of the older backup. *)
Lemma existing_backup_is_overwritten :
  files disk_with_backup !! "song_old.als" = Some [x00] ∧
  ∃ fs',
    replace_ableton_project stored not_reindented no_bytes "song" sample_project
      disk_with_backup = (fs', inr tt) ∧
    files fs' !! "song_old.als" = Some [x1f; x8b; x08].
Proof.
  split; [reflexivity|]. eexists. split; [vm_compute; reflexivity|]. reflexivity.
Qed.

(** Where [".als"] occurs elsewhere in the path, [replace] removes that
    occurrence too: the backup of [demo.als.als] is [demo_old.als], and the
    uncompressed tree is written to [demo]. *)
Lemma backup_name_with_repeated_extension :
  events (replace_ableton_project stored not_reindented no_bytes "demo.als.als"
            sample_project (FS {[ "demo.als.als" := [x1f; x8b] ]} [])).1 =
    [ Moved "demo.als.als" "demo_old.als";
      Printed "'demo.als.als' is now in 'demo_old.als'";
      Written "demo"; Written "demo.als.als";
      Printed "New Ableton project created in 'demo.als.als'";
      Removed "demo" ].
Proof. vm_compute. reflexivity. Qed.

(** * Further properties *)

(** ** Project Store Adapter *)

Lemma endswith_app (base suffix : string) : endswith (base +:+ suffix) suffix = true.
Proof. apply endswith_spec. by exists base. Qed.

(** X1.  The path that the adapter uses always ends with the extension,
    adding the extension a second time changes nothing, and the path is the
    given one exactly when that one ends with the extension already. *)
Theorem extension_is_added_once (als_file : string) :
  endswith (add_als_extension_if_it_is_not_set als_file) ".als" = true ∧
  add_als_extension_if_it_is_not_set (add_als_extension_if_it_is_not_set als_file)
    = add_als_extension_if_it_is_not_set als_file ∧
  (add_als_extension_if_it_is_not_set als_file = als_file ↔
   endswith als_file ".als" = true).
Proof.
  assert (Hends : endswith (add_als_extension_if_it_is_not_set als_file) ".als" = true).
  { destruct (add_als_extension_spec als_file) as [[Hends ->]|[_ ->]];
      [done | apply endswith_app]. }
  split; [done|]. split.
  - unfold add_als_extension_if_it_is_not_set at 1. by rewrite Hends.
  - destruct (add_als_extension_spec als_file) as [[He ->]|[He ->]]; [done|].
    split; [|by rewrite He]. intros Heq. by apply app_als_neq_base in Heq.
Qed.

(** The outcome of loading a file that exists. *)
Lemma extract_xml_of_file (gzip_decompress : list byte → Result (list byte))
    (xml_fromstring : list byte → Result Element)
    (fs : gmap string (list byte)) (als_file : string) (data : list byte) :
  fs !! add_als_extension_if_it_is_not_set als_file = Some data →
  extract_xml_from_ableton_project gzip_decompress xml_fromstring fs als_file =
    if String.eqb (hexlify (take 2 data)) "1f8b"
    then gzip_decompress data ≫= xml_fromstring
    else inl (Exception "Nothing to do here").
Proof.
  intros Hdata. unfold extract_xml_from_ableton_project, isfile.
  rewrite Hdata, bool_decide_eq_true_2 by done. cbn [default from_option id].
  by destruct (String.eqb (hexlify (take 2 data)) "1f8b").
Qed.

(** X2.  Loading returns a tree exactly when the file exists, starts with
    the two bytes [1f 8b], decompresses and parses; the tree is the parser's. *)
Theorem load_returns_only_compressed_projects
    (gzip_decompress : list byte → Result (list byte))
    (xml_fromstring : list byte → Result Element)
    (fs : gmap string (list byte)) (als_file : string) (tree : Element) :
  extract_xml_from_ableton_project gzip_decompress xml_fromstring fs als_file = inr tree ↔
  ∃ data project_xml_string,
    fs !! add_als_extension_if_it_is_not_set als_file = Some data ∧
    take 2 data = [x1f; x8b] ∧
    gzip_decompress data = inr project_xml_string ∧
    xml_fromstring project_xml_string = inr tree.
Proof.
  split.
  - intros Hload.
    destruct (fs !! add_als_extension_if_it_is_not_set als_file) as [data|] eqn:Hdata.
    + rewrite (extract_xml_of_file _ _ _ _ data Hdata) in Hload.
      destruct (String.eqb (hexlify (take 2 data)) "1f8b") eqn:Hhex; [|done].
      apply hexlify_magic in Hhex.
      destruct (gzip_decompress data) as [e|xml] eqn:Hgz; [done|].
      by exists data, xml.
    + unfold extract_xml_from_ableton_project, isfile in Hload.
      rewrite Hdata, bool_decide_eq_false_2 in Hload; [done|]. by intros [? ?].
  - intros (data & xml & Hdata & Hmagic%hexlify_magic & Hgz & Hparse).
    rewrite (extract_xml_of_file _ _ _ _ data Hdata), Hmagic, Hgz. done.
Qed.

(** The state in which a save ends, for a project file that exists and a
    path with a non-empty name in which the extension occurs once. *)
Lemma replace_ableton_project_run
    (gzip_compress : string → list byte → list byte)
    (xml_indent : Element → Element) (xml_write : Element → list byte)
    (als_file base : string) (tree : Element) (fs : file_system) (data : list byte) :
  add_als_extension_if_it_is_not_set als_file = base +:+ ".als" →
  occurrences ".als" (base +:+ ".als") = 1%nat →
  base ≠ EmptyString →
  files fs !! (base +:+ ".als") = Some data →
  replace_ableton_project gzip_compress xml_indent xml_write als_file tree fs =
    (FS (delete base
           (<[base +:+ ".als" := gzip_compress base (xml_write (xml_indent tree))]>
              (<[base := xml_write (xml_indent tree)]>
                 (<[base +:+ "_old.als" := data]>
                    (delete (base +:+ ".als") (files fs))))))
        (events fs ++
         [ Moved (base +:+ ".als") (base +:+ "_old.als");
           Printed ("'" +:+ (base +:+ ".als") +:+ "' is now in '" +:+ base +:+ "_old.als'");
           Written base; Written (base +:+ ".als");
           Printed ("New Ableton project created in '" +:+ (base +:+ ".als") +:+ "'");
           Removed base ]), inr tt).
Proof.
  intros Hext Honce Hbase Hdata. unfold replace_ableton_project.
  rewrite Hext, replace_final_extension by done.
  rewrite bind_run, (shutil_move_run _ _ _ data) by done.
  rewrite bind_run. unfold print at 1, modify_state at 1, record_event at 1.
  cbn [files events].
  rewrite bind_run, write_file_run by done. cbn [files events].
  rewrite bind_run, (read_file_run _ _ (xml_write (xml_indent tree)))
    by (cbn [files]; by rewrite lookup_insert_eq).
  rewrite bind_run, write_file_run by apply app_als_neq_empty.
  cbn [files events].
  rewrite bind_run. unfold print at 1, modify_state at 1, record_event at 1.
  cbn [files events].
  rewrite (os_remove_run _ _ (xml_write (xml_indent tree))).
  2:{ cbn [files]. rewrite lookup_insert_ne by apply app_als_neq_base.
      by rewrite lookup_insert_eq. }
  cbn [files events]. by rewrite <- !app_assoc.
Qed.

Lemma load_returns_only_compressed_projects_witness :
  extract_xml_from_ableton_project unframed (parsed_as sample_project)
    (files disk_with_project) "song" = inr sample_project.
Proof.
  apply (load_returns_only_compressed_projects unframed (parsed_as sample_project)
           (files disk_with_project) "song" sample_project).
  exists (framed "song" [x3c]), [x3c]. split_and!; reflexivity.
Defined.

Lemma string_app_assoc (s1 s2 s3 : string) : (s1 +:+ s2) +:+ s3 = s1 +:+ (s2 +:+ s3).
Proof.
  induction s1 as [|c s1 IH]; [done|]. rewrite !string_app_cons. by f_equal.
Qed.

(** X3.  A save followed by a load gives back the tree that was written:
    provided the compressor puts the magic number in front and the
    decompressor undoes it, loading the project path after the save yields
    what the parser makes of the serialised tree, and loading the backup
    path yields what loading the project yielded before the save. *)
Theorem saved_project_loads_back
    (gzip_decompress : list byte → Result (list byte))
    (gzip_compress : string → list byte → list byte)
    (xml_fromstring : list byte → Result Element)
    (xml_indent : Element → Element) (xml_write : Element → list byte)
    (als_file base : string) (tree : Element) (fs : file_system) (data : list byte) :
  add_als_extension_if_it_is_not_set als_file = base +:+ ".als" →
  occurrences ".als" (base +:+ ".als") = 1%nat →
  base ≠ EmptyString →
  files fs !! (base +:+ ".als") = Some data →
  (∀ name d, take 2 (gzip_compress name d) = [x1f; x8b]) →
  (∀ name d, gzip_decompress (gzip_compress name d) = inr d) →
  ∃ fs',
    replace_ableton_project gzip_compress xml_indent xml_write als_file tree fs
      = (fs', inr tt) ∧
    extract_xml_from_ableton_project gzip_decompress xml_fromstring (files fs') als_file
      = xml_fromstring (xml_write (xml_indent tree)) ∧
    extract_xml_from_ableton_project gzip_decompress xml_fromstring (files fs')
      (base +:+ "_old.als")
      = extract_xml_from_ableton_project gzip_decompress xml_fromstring (files fs) als_file.
Proof.
  intros Hext Honce Hbase Hdata Hmagic Hround.
  eexists. split; [by apply (replace_ableton_project_run _ _ _ _ base _ _ data)|].
  cbn [files]. split.
  - rewrite (extract_xml_of_file _ _ _ _
               (gzip_compress base (xml_write (xml_indent tree)))).
    + rewrite (proj2 (hexlify_magic _)) by apply Hmagic. by rewrite Hround.
    + rewrite Hext. rewrite lookup_delete_ne by (symmetry; apply app_als_neq_base).
      by rewrite lookup_insert_eq.
  - assert (Hbackup : add_als_extension_if_it_is_not_set (base +:+ "_old.als")
                      = base +:+ "_old.als").
    { unfold add_als_extension_if_it_is_not_set.
      change "_old.als" with ("_old" +:+ ".als"). rewrite <- string_app_assoc.
      by rewrite endswith_app. }
    rewrite (extract_xml_of_file _ _ _ _ data), (extract_xml_of_file _ _ _ _ data);
      [done | by rewrite Hext |].
    rewrite Hbackup.
    rewrite lookup_delete_ne by (symmetry; apply app_old_neq_base).
    rewrite lookup_insert_ne by (symmetry; apply app_old_neq_app_als).
    rewrite lookup_insert_ne by (symmetry; apply app_old_neq_base).
    by rewrite lookup_insert_eq.
Qed.

Lemma saved_project_loads_back_witness :
  ∃ fs',
    replace_ableton_project framed not_reindented no_bytes "song" sample_project
      disk_with_project = (fs', inr tt) ∧
    extract_xml_from_ableton_project unframed (parsed_as sample_project) (files fs') "song"
      = parsed_as sample_project (no_bytes (not_reindented sample_project)) ∧
    extract_xml_from_ableton_project unframed (parsed_as sample_project) (files fs')
      "song_old.als"
      = extract_xml_from_ableton_project unframed (parsed_as sample_project)
          (files disk_with_project) "song".
Proof.
  apply (saved_project_loads_back unframed framed (parsed_as sample_project)
           not_reindented no_bytes "song" "song" sample_project disk_with_project
           (framed "song" [x3c])).
  - reflexivity.
  - reflexivity.
  - discriminate.
  - reflexivity.
  - reflexivity.
  - reflexivity.
Defined.

(** X4.  A completed save leaves every file other than the project, its
    backup and the uncompressed intermediate as it was; the intermediate
    path, the name without extension, holds no file afterwards, also when a
    file of that name existed before the save. *)
Theorem save_touches_three_paths
    (gzip_compress : string → list byte → list byte)
    (xml_indent : Element → Element) (xml_write : Element → list byte)
    (als_file base : string) (tree : Element) (fs : file_system) (data : list byte) :
  add_als_extension_if_it_is_not_set als_file = base +:+ ".als" →
  occurrences ".als" (base +:+ ".als") = 1%nat →
  base ≠ EmptyString →
  files fs !! (base +:+ ".als") = Some data →
  ∃ fs',
    replace_ableton_project gzip_compress xml_indent xml_write als_file tree fs
      = (fs', inr tt) ∧
    files fs' !! base = None ∧
    ∀ other, other ≠ base +:+ ".als" → other ≠ base +:+ "_old.als" → other ≠ base →
             files fs' !! other = files fs !! other.
Proof.
  intros Hext Honce Hbase Hdata.
  eexists. split; [by apply (replace_ableton_project_run _ _ _ _ base _ _ data)|].
  cbn [files]. split; [by rewrite lookup_delete_eq|].
  intros other H1 H2 H3.
  rewrite lookup_delete_ne, !lookup_insert_ne, lookup_delete_ne by done. done.
Qed.

Lemma save_touches_three_paths_witness :
  ∃ fs',
    replace_ableton_project framed not_reindented no_bytes "song" sample_project
      (FS (<["song" := [x00]]> (files disk_with_project)) []) = (fs', inr tt) ∧
    files fs' !! "song" = None ∧
    ∀ other, other ≠ "song.als" → other ≠ "song_old.als" → other ≠ "song" →
             files fs' !! other = <["song" := [x00]]> (files disk_with_project) !! other.
Proof.
  refine (save_touches_three_paths framed not_reindented no_bytes "song" "song"
            sample_project (FS (<["song" := [x00]]> (files disk_with_project)) [])
            (framed "song" [x3c]) _ _ _ _).
  - reflexivity.
  - reflexivity.
  - discriminate.
  - reflexivity.
Defined.

(** ** Marker Extractor *)

Lemma mapM_result_fails {A B} (f : A → Result B) (l : list A) (err : py_exception) :
  (∀ x e, x ∈ l → f x = inl e → e = err) →
  Exists (λ x, ∃ e, f x = inl e) l →
  mapM f l = inl err.
Proof.
  intros Herr Hex. induction Hex as [x l [e He]|x l _ IH]; simpl.
  - rewrite He. simpl. f_equal. eapply Herr; [apply list_elem_of_here | done].
  - destruct (f x) as [e|y] eqn:Hx; simpl.
    + f_equal. eapply Herr; [apply list_elem_of_here | done].
    + rewrite IH; [done|]. intros x' e Hin. apply Herr. by apply list_elem_of_further.
Qed.

(** The comprehension for one direction raises only on the method call on
    [None]. *)
Lemma direction_step_outcome (direction : Element) :
  (direction_type ← deref (find "direction-type" direction);
   match findall "rehearsal" direction_type with
   | [] => mret []
   | _ :: _ =>
       direction_type ← deref (find "direction-type" direction);
       mret [find "rehearsal" direction_type]
   end) =
  match find "direction-type" direction with
  | Some _ => inr (option_list (Some <$> rehearsal_of_direction direction))
  | None => inl AttributeError
  end.
Proof.
  unfold rehearsal_of_direction.
  destruct (find "direction-type" direction) as [dt|] eqn:Hdt; [|done].
  cbn. rewrite !(find_head_findall "rehearsal" dt).
  by destruct (findall "rehearsal" dt).
Qed.

(** The outcome of the loop body for one measure. *)
Lemma markers_of_measure_outcome (measure : Element) :
  markers_of_measure measure =
    if decide (measure_directions_have_type measure)
    then inr (records_of_measure measure)
    else inl AttributeError.
Proof.
  case_decide as Hdt.
  - apply markers_of_measure_run. intros d Hd.
    unfold measure_directions_have_type in Hdt. rewrite Forall_forall in Hdt.
    by apply Hdt.
  - unfold markers_of_measure, rehearsals_of_measure.
    rewrite (mapM_result_fails _ _ AttributeError); [done| |].
    + intros d e _. rewrite direction_step_outcome.
      destruct (find "direction-type" d); [done | by intros [= <-]].
    + apply not_Forall_Exists in Hdt; [|apply _].
      eapply Exists_impl; [exact Hdt|]. intros d Hd. unfold compose in Hd.
      rewrite direction_step_outcome.
      destruct (find "direction-type" d) as [dt|]; [|by exists AttributeError].
      exfalso. apply Hd. done.
Qed.

(** X5.  The outcome of the extraction, in full.  A path that names no file
    raises [FileNotFoundError]; an exception of the parser is passed on.
    On a parsed tree the extraction raises [AttributeError] when the root
    has no [part] child, or when a direction of a measure that passes the
    test of line 65 has no [direction-type] child; otherwise it returns the
    records of the measures that pass the test, in document order.  A
    measure whose first direction has no children does not pass the test:
    its directions are not looked at. *)
Theorem extraction_outcome (xml_parse : list byte → Result Element)
    (fs : gmap string (list byte)) (gp_xml_file : string) :
  extract_marker_from_gp_xml xml_parse fs gp_xml_file =
    match fs !! gp_xml_file with
    | None =>
        inl (FileNotFoundError
               ("The GuitarPro XML file " +:+ gp_xml_file +:+ " does not exist"))
    | Some data =>
        match xml_parse data with
        | inl e => inl e
        | inr tree =>
            match find "part" tree with
            | None => inl AttributeError
            | Some part =>
                if decide (Forall measure_directions_have_type (kept_measures part))
                then inr (measure ← kept_measures part; records_of_measure measure)
                else inl AttributeError
            end
        end
    end.
Proof.
  unfold extract_marker_from_gp_xml, isfile.
  destruct (fs !! gp_xml_file) as [data|] eqn:Hdata.
  2:{ rewrite bool_decide_eq_false_2; [done | by intros [? ?]]. }
  rewrite bool_decide_eq_true_2 by done. cbn [default from_option id].
  destruct (xml_parse data) as [e|tree]; [done|]. cbn [mbind result_bind].
  unfold markers_of_tree. destruct (find "part" tree) as [part|]; [|done].
  cbn [deref mbind result_bind]. fold (kept_measures part).
  case_decide as Hdt.
  - rewrite (mapM_result_inr _ _ (records_of_measure <$> kept_measures part)).
    + cbn [fmap result_fmap]. f_equal.
      induction (kept_measures part) as [|m ms IH]; [done|].
      cbn [fmap list_fmap concat mbind list_bind]. f_equal. apply IH.
      by eapply Forall_inv_tail.
    + apply Forall2_fmap_r, Forall_Forall2_diag.
      eapply Forall_impl; [exact Hdt|]. intros m Hm. cbn beta.
      rewrite markers_of_measure_outcome. by rewrite decide_True.
  - rewrite (mapM_result_fails _ _ AttributeError); [done| |].
    + intros m e _. rewrite markers_of_measure_outcome. case_decide; [done|].
      by intros [= <-].
    + apply not_Forall_Exists in Hdt; [|apply _].
      eapply Exists_impl; [exact Hdt|]. intros m Hm. unfold compose in Hm.
      rewrite markers_of_measure_outcome. rewrite decide_False by done. by eexists.
Qed.

Lemma extraction_outcome_witness :
  extract_marker_from_gp_xml (parsed_as score_with_childless_direction) disk_with_score
    "song.xml" = inr [Marker (Some "1") (Some "Intro")].
Proof. rewrite extraction_outcome. reflexivity. Defined.

(** ** Locator Splicer *)

(** The call that reaches the loop: the outcome is the loop's, and the
    elements that the loop made are in the nested collection. *)
Lemma collection_after_loop (ms : list MarkerRecord) (root live_set : Element) :
  ms ≠ [] →
  find "LiveSet" root = Some live_set →
  is_Some (find "ViewStateSessionMixerHeight" live_set) →
  ∃ root' live_set' collection,
    add_markers_to_ableton_project ms root = (root', (locator_elements 0 ms).2) ∧
    find "LiveSet" root' = Some live_set' ∧
    find "Locators" live_set' = Some collection ∧
    last (children collection) =
      Some (Elem "Locators" [] None (locator_elements 0 ms).1).
Proof.
  intros Hms [i Hls]%find_Some_list_find Hanchor.
  destruct ms as [|m ms]; [done|].
  apply find_is_Some_without_stale in Hanchor as [[k a] Hk]; [|done].
  destruct (add_markers_reaching_insertion m ms _ _ _ _ _ Hls Hk)
    as (j & l1 & Hjk & Hj & Hrun).
  eexists _, _, _. split; [exact Hrun|].
  pose proof (proj1 (list_find_Some _ _ _ _) Hls) as (_ & Htag & _).
  split; [by apply (find_after_alter _ _ _ live_set)|].
  pose proof (proj1 (list_find_Some _ _ _ _) Hj) as (_ & Htag1 & _).
  split; [by apply (find_after_alter "Locators" _ (set_children live_set _) l1)|].
  cbn [children add_children on_children set_children]. by rewrite last_snoc.
Qed.

Lemma locator_elements_stops (good : list MarkerRecord) (bars : list Z)
    (bad : MarkerRecord) (rest : list MarkerRecord) (e : py_exception) (id : Z) :
  0 ≤ id →
  Forall2 (λ m b, py_int (bar m) = inr b) good bars →
  Forall (λ b, within_str_digits ((b - 1) * 4)) bars →
  within_str_digits (id + Z.of_nat (length good) + 1) →
  py_int (bar bad) ≫= (λ b, format_int ((b - 1) * 4)) = inl e →
  locator_elements id (good ++ bad :: rest) =
    (imap (λ n mb, locator_entry (id + Z.of_nat n + 1) ((mb.2 - 1) * 4)
                     (format_value (marker mb.1))) (zip good bars)
       ++ [unfinished_entry (id + Z.of_nat (length good) + 1)], inl e).
Proof.
  intros Hid Hgood. revert id Hid.
  induction Hgood as [|m b good bars Hb _ IH]; intros id Hid Htimes Hids Hbad.
  - cbn [app locator_elements length imap zip zip_with] in *.
    rewrite format_int_within
      by (eapply within_str_digits_le; [|exact Hids]; lia).
    replace (id + Z.of_nat 0 + 1) with (id + 1) by lia.
    destruct (py_int (bar bad)) as [e'|b]; cbn [mbind result_bind] in Hbad.
    + by injection Hbad as ->.
    + by rewrite Hbad.
  - apply Forall_cons in Htimes as [Htime Htimes].
    cbn [app locator_elements length] in *.
    rewrite format_int_within
      by (eapply within_str_digits_le; [|exact Hids]; lia).
    rewrite Hb, (format_int_within _ Htime), IH; [|lia|done| |done].
    + cbn. f_equal. f_equal.
      * f_equal. lia.
      * f_equal; [|do 2 f_equal; lia].
        apply imap_ext. intros n [m' b'] _. simpl. f_equal. lia.
    + replace (id + 1 + Z.of_nat (length good) + 1)
        with (id + Z.of_nat (S (length good)) + 1) by lia.
      done.
Qed.

(** X6.  A failure of the loop is not undone.  When the argument of line
    106 raises for a record ([int()] rejects its bar, which is missing or
    an ASCII string, or the time computed from it is beyond the digit limit
    of the formatting), the call raises that exception, and the tree has the
    new [Locators] nodes already: the nested collection holds the entries of
    the records before that one, complete, followed by the entry of that
    record with its [Id] and its [LomId] child only.  The records after it
    are not looked at.  The records before it are records that the
    interpreter converts, as in C1. *)
Theorem failed_loop_leaves_entries (good : list MarkerRecord) (bars : list Z)
    (bad : MarkerRecord) (rest : list MarkerRecord) (e : py_exception)
    (root live_set : Element) :
  find "LiveSet" root = Some live_set →
  is_Some (find "ViewStateSessionMixerHeight" live_set) →
  Forall2 (λ m b, py_int (bar m) = inr b) good bars →
  Forall (λ b, within_str_digits ((b - 1) * 4)) bars →
  within_str_digits (Z.of_nat (length good) + 1) →
  (∀ s, bar bad = Some s → is_ascii s) →
  py_int (bar bad) ≫= (λ b, format_int ((b - 1) * 4)) = inl e →
  ∃ root' live_set' collection,
    add_markers_to_ableton_project (good ++ bad :: rest) root = (root', inl e) ∧
    find "LiveSet" root' = Some live_set' ∧
    find "Locators" live_set' = Some collection ∧
    last (children collection) =
      Some (Elem "Locators" [] None
              (expected_locators good bars ++
               [Elem "Locator" [("Id", str_of_int (Z.of_nat (length good) + 1))] None
                  [Elem "LomId" [("Value", "0")] None []]])).
Proof.
  intros Hls Hanchor Hgood Htimes Hids _ Hbad.
  destruct (collection_after_loop (good ++ bad :: rest) root live_set)
    as (root' & live_set' & collection & Hrun & Hls' & Hcoll & Hlast);
    [by destruct good | done | done |].
  rewrite (locator_elements_stops _ bars _ _ e) in Hrun, Hlast by done.
  by exists root', live_set', collection.
Qed.

Lemma failed_loop_leaves_entries_witness :
  ∃ root' live_set' collection,
    add_markers_to_ableton_project
      ([Marker (Some "3") (Some "Chorus")] ++
       Marker (Some (String "028" "5")) (Some "Bridge") ::
       [Marker (Some "9") (Some "Outro")]) sample_project = (root', inl ValueError) ∧
    find "LiveSet" root' = Some live_set' ∧
    find "Locators" live_set' = Some collection ∧
    last (children collection) =
      Some (Elem "Locators" [] None
              (expected_locators [Marker (Some "3") (Some "Chorus")] [3] ++
               [Elem "Locator" [("Id", str_of_int (Z.of_nat 1 + 1))] None
                  [Elem "LomId" [("Value", "0")] None []]])).
Proof.
  apply (failed_loop_leaves_entries [Marker (Some "3") (Some "Chorus")] [3]
           (Marker (Some (String "028" "5")) (Some "Bridge"))
           [Marker (Some "9") (Some "Outro")] ValueError
           sample_project
           (Elem "LiveSet" [] None
              [ leaf "Tracks"; leaf "ViewStateSessionMixerHeight"; leaf "SomeOtherNode" ])).
  - reflexivity.
  - eexists. reflexivity.
  - repeat constructor.
  - repeat constructor; vm_compute; reflexivity.
  - vm_compute. reflexivity.
  - intros s [= <-]. apply (bool_decide_unpack _). vm_compute. exact I.
  - reflexivity.
Defined.

(** X7.  A failure on the anchor comes after the removal.  When [LiveSet]
    has a [Locators] child with children and no anchor child, the call
    raises [IndexError], and the tree has lost that [Locators] child: the
    locators that the project had are gone although no new ones were
    written. *)
Theorem old_collection_is_lost_without_anchor (ms : list MarkerRecord)
    (root live_set old : Element) :
  ms ≠ [] →
  find "LiveSet" root = Some live_set →
  find "Locators" live_set = Some old →
  children old ≠ [] →
  find "ViewStateSessionMixerHeight" live_set = None →
  ∃ root' live_set' j,
    add_markers_to_ableton_project ms root = (root', inl IndexError) ∧
    find "LiveSet" root' = Some live_set' ∧
    children live_set !! j = Some old ∧
    children live_set' = delete j (children live_set).
Proof.
  intros Hms [i Hls]%find_Some_list_find [j Hold]%find_Some_list_find Hkids
         Hanchor%find_None_list_find.
  destruct ms as [|m ms]; [done|]. rewrite add_markers_run, Hls.
  assert (Hstale : without_stale (children live_set) = delete j (children live_set)).
  { unfold without_stale. rewrite Hold. unfold truth.
    by rewrite bool_decide_eq_false_2. }
  apply (without_stale_find_other "ViewStateSessionMixerHeight") in Hanchor; [|done].
  unfold spliced. rewrite Hanchor. cbn [fst snd]. rewrite Hstale.
  pose proof (proj1 (list_find_Some _ _ _ _) Hls) as (_ & Htag & _).
  pose proof (proj1 (list_find_Some _ _ _ _) Hold) as (Hj & _ & _).
  eexists _, (set_children live_set (delete j (children live_set))), j.
  split; [done|]. split; [|done].
  cbn [alter_at].
  by apply (find_after_alter "LiveSet"
              (on_children (λ _, delete j (children live_set))) root live_set i).
Qed.

Lemma old_collection_is_lost_without_anchor_witness :
  ∃ root' live_set' j,
    add_markers_to_ableton_project sample_markers project_without_anchor
      = (root', inl IndexError) ∧
    find "LiveSet" root' = Some live_set' ∧
    [ leaf "Tracks";
      Elem "Locators" [] None [Elem "Locators" [] None [locator_entry 1 0 "Intro"]] ] !! j
      = Some (Elem "Locators" [] None
                [Elem "Locators" [] None [locator_entry 1 0 "Intro"]]) ∧
    children live_set' =
      delete j [ leaf "Tracks";
                 Elem "Locators" [] None
                   [Elem "Locators" [] None [locator_entry 1 0 "Intro"]] ].
Proof.
  apply (old_collection_is_lost_without_anchor sample_markers project_without_anchor
           (Elem "LiveSet" [] None
              [ leaf "Tracks";
                Elem "Locators" [] None
                  [Elem "Locators" [] None [locator_entry 1 0 "Intro"]] ])
           (Elem "Locators" [] None [Elem "Locators" [] None [locator_entry 1 0 "Intro"]])).
  - discriminate.
  - reflexivity.
  - reflexivity.
  - discriminate.
  - reflexivity.
Defined.

(** X8.  Importing again replaces what the first import wrote.  After a
    successful call on a tree in which the removal step leaves no [Locators]
    child of [LiveSet] (there was none, or a single one that had children),
    a further call with any non-empty marker list ends exactly as it would
    on the original tree, and a further call with the same markers leaves
    the tree as it is. *)
Theorem reimport_replaces_first_import (ms1 ms2 : list MarkerRecord)
    (root root1 live_set : Element) :
  find "LiveSet" root = Some live_set →
  find "Locators" (set_children live_set (without_stale (children live_set))) = None →
  add_markers_to_ableton_project ms1 root = (root1, inr tt) →
  (ms2 ≠ [] →
   add_markers_to_ableton_project ms2 root1 = add_markers_to_ableton_project ms2 root) ∧
  add_markers_to_ableton_project ms1 root1 = (root1, inr tt).
Proof.
  intros Hls Hnone Hrun. split.
  - intros Hms2. by apply (second_application_replaces_first ms1 ms2 root root1 live_set).
  - rewrite (second_application_replaces_first ms1 ms1 root root1 live_set); try done.
    intros ->. done.
Qed.

Lemma reimport_replaces_first_import_witness :
  ([Marker (Some "9") (Some "Outro")] ≠ [] →
   add_markers_to_ableton_project [Marker (Some "9") (Some "Outro")]
     (add_markers_to_ableton_project sample_markers sample_project).1
   = add_markers_to_ableton_project [Marker (Some "9") (Some "Outro")] sample_project) ∧
  add_markers_to_ableton_project sample_markers
    (add_markers_to_ableton_project sample_markers sample_project).1
  = ((add_markers_to_ableton_project sample_markers sample_project).1, inr tt).
Proof.
  apply (reimport_replaces_first_import sample_markers
           [Marker (Some "9") (Some "Outro")] sample_project _
           (Elem "LiveSet" [] None
              [ leaf "Tracks"; leaf "ViewStateSessionMixerHeight"; leaf "SomeOtherNode" ])).
  - reflexivity.
  - reflexivity.
  - reflexivity.
Defined.

Lemma filter_delete_other {A} (P : A → Prop) `{∀ x, Decision (P x)}
    (l : list A) (j : nat) (x : A) :
  l !! j = Some x → ¬ P x → filter P (delete j l) = filter P l.
Proof.
  revert j. induction l as [|y l IH]; intros [|j] Hj Hx; simplify_eq/=.
  - by rewrite filter_cons_False.
  - rewrite !filter_cons. by rewrite (IH j).
Qed.

Lemma filter_alter_other {A} (P : A → Prop) `{∀ x, Decision (P x)}
    (f : A → A) (l : list A) (j : nat) (x : A) :
  l !! j = Some x → ¬ P x → ¬ P (f x) → filter P (alter f j l) = filter P l.
Proof.
  revert j. induction l as [|y l IH]; intros [|j] Hj Hx Hfx; simplify_eq/=.
  - by rewrite !filter_cons_False.
  - rewrite !filter_cons. by rewrite (IH j).
Qed.

Lemma filter_insert_middle_other {A} (P : A → Prop) `{∀ x, Decision (P x)}
    (l : list A) (k : nat) (x : A) :
  ¬ P x → filter P (take k l ++ x :: drop k l) = filter P l.
Proof.
  intros Hx. rewrite filter_app, filter_cons_False by done.
  by rewrite <- filter_app, take_drop.
Qed.

(** The children of [LiveSet] that are not tagged [Locators] come through
    lines 91-109 as they are. *)
Lemma spliced_keeps_other_children (cs : list Element) (ms : list MarkerRecord) :
  filter (λ c, tag c ≠ "Locators") (spliced cs ms).1 =
  filter (λ c, tag c ≠ "Locators") cs.
Proof.
  assert (Hstale : filter (λ c, tag c ≠ "Locators") (without_stale cs) =
                   filter (λ c, tag c ≠ "Locators") cs).
  { destruct (without_stale_cases cs) as [->|(j & l & Hl & _ & ->)]; [done|].
    apply list_find_Some in Hl as (Hj & Hl & _).
    apply (filter_delete_other _ _ _ l); [done|]. by intros Hne. }
  destruct (list_find (has_tag "ViewStateSessionMixerHeight") (without_stale cs))
    as [[k a]|] eqn:Hk.
  - destruct (spliced_with_anchor _ ms _ _ Hk) as (j & l1 & _ & Hj & ->).
    cbn [fst]. apply list_find_Some in Hj as (Hj & Hl1 & _).
    rewrite (filter_alter_other _ _ _ _ l1); [| done | by intros Hne..].
    rewrite filter_insert_middle_other; [done|]. by intros Hne.
  - unfold spliced. by rewrite Hk.
Qed.

(** X9.  Whatever the outcome, the call touches nothing but the first
    [LiveSet] child of the root, and inside it nothing but children tagged
    [Locators]: the root keeps its tag, attributes and text, its children
    other than that [LiveSet] are the same at the same positions, and the
    [LiveSet] keeps its tag, attributes, text and, in their order, all its
    children that are not tagged [Locators]. *)
Theorem call_touches_only_collections (ms : list MarkerRecord)
    (root root' : Element) (outcome : Result unit) :
  add_markers_to_ableton_project ms root = (root', outcome) →
  tag root' = tag root ∧ attrib root' = attrib root ∧ text root' = text root ∧
  match list_find (has_tag "LiveSet") (children root) with
  | None => root' = root
  | Some (i, live_set) =>
      ∃ live_set',
        children root' = <[i := live_set']> (children root) ∧
        tag live_set' = tag live_set ∧ attrib live_set' = attrib live_set ∧
        text live_set' = text live_set ∧
        filter (λ c, tag c ≠ "Locators") (children live_set') =
        filter (λ c, tag c ≠ "Locators") (children live_set)
  end.
Proof.
  destruct ms as [|m ms].
  - intros [= <- _]. split_and!; try done.
    destruct (list_find (has_tag "LiveSet") (children root)) as [[i ls]|] eqn:Hls;
      [|done].
    exists ls. split_and!; try done. symmetry. apply list_insert_id.
    by apply list_find_Some in Hls as (? & _).
  - rewrite add_markers_run.
    destruct (list_find (has_tag "LiveSet") (children root)) as [[i ls]|] eqn:Hls.
    + intros [= <- _]. cbn [alter_at]. split_and!; try done.
      apply list_find_Some in Hls as (Hi & _).
      eexists. split; [by apply (list_alter_as_insert _ _ _ ls)|].
      split_and!; try done. apply spliced_keeps_other_children.
    + by intros [= <- _].
Qed.

Lemma call_touches_only_collections_witness :
  tag (add_markers_to_ableton_project sample_markers project_without_anchor).1
    = tag project_without_anchor ∧
  attrib (add_markers_to_ableton_project sample_markers project_without_anchor).1
    = attrib project_without_anchor ∧
  text (add_markers_to_ableton_project sample_markers project_without_anchor).1
    = text project_without_anchor ∧
  match list_find (has_tag "LiveSet") (children project_without_anchor) with
  | None => (add_markers_to_ableton_project sample_markers project_without_anchor).1
            = project_without_anchor
  | Some (i, live_set) =>
      ∃ live_set',
        children (add_markers_to_ableton_project sample_markers project_without_anchor).1
          = <[i := live_set']> (children project_without_anchor) ∧
        tag live_set' = tag live_set ∧ attrib live_set' = attrib live_set ∧
        text live_set' = text live_set ∧
        filter (λ c, tag c ≠ "Locators") (children live_set') =
        filter (λ c, tag c ≠ "Locators") (children live_set)
  end.
Proof.
  apply (call_touches_only_collections sample_markers project_without_anchor _
           (inl IndexError)).
  reflexivity.
Defined.

Lemma list_find_None_filter {A} (P : A → Prop) `{∀ x, Decision (P x)} (l : list A) :
  list_find P l = None ↔ filter P l = [].
Proof.
  rewrite list_find_None. induction l as [|x l IH]; [done|].
  rewrite Forall_cons, filter_cons. destruct (decide (P x)) as [HP|HP].
  - split; [by intros [? _] | done].
  - rewrite IH. split; [by intros [_ ?] | done].
Qed.

Lemma filter_delete_found {A} (P : A → Prop) `{∀ x, Decision (P x)}
    (l : list A) (j : nat) (x : A) :
  list_find P l = Some (j, x) →
  filter P l = x :: filter P (delete j l).
Proof.
  revert j. induction l as [|y l IH]; intros j Hfind; [done|].
  cbn [list_find] in Hfind. rewrite filter_cons.
  destruct (decide (P y)) as [HP|HP].
  - by injection Hfind as <- <-.
  - destruct (list_find P l) as [[j' x']|] eqn:Hl; [|done].
    injection Hfind as <- <-. cbn [delete list_delete]. rewrite filter_cons_False by done.
    by apply IH.
Qed.

(** With at most one collection, and that one with children, the removal
    step leaves no [Locators] child. *)
Lemma removal_leaves_no_collection (live_set : Element) :
  one_collection_at_most live_set →
  list_find (has_tag "Locators") (without_stale (children live_set)) = None.
Proof.
  unfold one_collection_at_most, findall, without_stale. intros Hone.
  destruct (list_find (has_tag "Locators") (children live_set)) as [[j c]|] eqn:Hfind.
  - rewrite (filter_delete_found _ _ _ _ Hfind) in Hone.
    destruct (filter (has_tag "Locators") (delete j (children live_set))) eqn:Hrest;
      [|done].
    unfold truth. rewrite bool_decide_eq_false_2 by done. cbn [negb].
    by apply list_find_None_filter.
  - done.
Qed.

(** X10.  The call keeps the project at one locator collection.  If the
    [Locators] children of [LiveSet] are at most one, which has children, a
    successful call leaves exactly one [Locators] child, the new one, which
    holds the nested collection and nothing else; so the same holds of the
    tree it produces. *)
Theorem collection_stays_single (ms : list MarkerRecord) (root root' live_set : Element) :
  find "LiveSet" root = Some live_set →
  one_collection_at_most live_set →
  add_markers_to_ableton_project ms root = (root', inr tt) →
  ∃ live_set' entries,
    find "LiveSet" root' = Some live_set' ∧
    findall "Locators" live_set' =
      [Elem "Locators" [] None [Elem "Locators" [] None entries]] ∧
    one_collection_at_most live_set'.
Proof.
  intros [i Hls]%find_Some_list_find Hone%removal_leaves_no_collection Hrun.
  destruct ms as [|m ms]; [done|].
  destruct (list_find (has_tag "ViewStateSessionMixerHeight")
              (without_stale (children live_set))) as [[k a]|] eqn:Hk.
  2:{ rewrite add_markers_run, Hls in Hrun. unfold spliced in Hrun.
      by rewrite Hk in Hrun. }
  destruct (add_markers_reaching_insertion m ms _ _ _ _ _ Hls Hk)
    as (j & l1 & _ & Hj & Hrun').
  rewrite Hrun' in Hrun. injection Hrun as <- _.
  pose proof (proj1 (list_find_Some _ _ _ _) Hk) as (Hka%lookup_lt_Some & _ & _).
  destruct (first_collection_is_new _ _ _ _ Hka Hone Hj) as [-> ->].
  pose proof (proj1 (list_find_Some _ _ _ _) Hls) as (_ & Htag & _).
  set (cs1 := without_stale (children live_set)) in *.
  set (F := add_children _).
  assert (Hall : findall "Locators"
                   (set_children live_set
                      (alter F (S k) (take (S k) cs1 ++
                                      new_Element "Locators" [] :: drop (S k) cs1)))
                 = [F (new_Element "Locators" [])]).
  { unfold findall. cbn [children set_children].
    replace (S k) with (length (take (S k) cs1) + 0)%nat at 1
      by (rewrite length_take; lia).
    rewrite alter_app_r. cbn [alter list_alter].
    apply list_find_None_filter in Hone.
    rewrite <- (take_drop (S k) cs1), filter_app in Hone.
    apply app_eq_nil in Hone as [Htake Hdrop].
    rewrite filter_app, filter_cons_True by done. by rewrite Htake, Hdrop. }
  eexists _, _. split; [by apply (find_after_alter _ _ _ live_set)|].
  split; [exact Hall|].
  unfold one_collection_at_most. by rewrite Hall.
Qed.

Lemma collection_stays_single_witness :
  ∃ live_set' entries,
    find "LiveSet" (add_markers_to_ableton_project sample_markers sample_project).1
      = Some live_set' ∧
    findall "Locators" live_set' =
      [Elem "Locators" [] None [Elem "Locators" [] None entries]] ∧
    one_collection_at_most live_set'.
Proof.
  apply (collection_stays_single sample_markers sample_project _
           (Elem "LiveSet" [] None
              [ leaf "Tracks"; leaf "ViewStateSessionMixerHeight"; leaf "SomeOtherNode" ])).
  - reflexivity.
  - exact I.
  - reflexivity.
Defined.

(** ** The script *)

(** X11.  The script writes nothing before the splicing has succeeded.
    However a run ends, either the file system is as it was and the run
    raised, or both arguments were read, the project was loaded, the markers
    were extracted, the splicer succeeded on the loaded tree, and the run
    ends as the save of the spliced tree does on the initial file system.
    In particular a subscription [args[...]] that raises, as that of an
    [argparse.Namespace] does, ends the run with the files untouched. *)
Theorem script_saves_after_splicing
    (gzip_decompress : list byte → Result (list byte))
    (gzip_compress : string → list byte → list byte)
    (xml_fromstring xml_parse : list byte → Result Element)
    (xml_indent : Element → Element) (xml_write : Element → list byte)
    (args_item : string → Result string)
    (fs fs' : file_system) (outcome : Result unit) :
  main gzip_decompress gzip_compress xml_fromstring xml_parse xml_indent xml_write
       args_item fs = (fs', outcome) →
  (fs' = fs ∧ ∃ e, outcome = inl e) ∨
  ∃ als_file gp_xml_file ableton_xml markers spliced_tree,
    args_item "als_file" = inr als_file ∧
    args_item "gp_xml_file" = inr gp_xml_file ∧
    extract_xml_from_ableton_project gzip_decompress xml_fromstring (files fs) als_file
      = inr ableton_xml ∧
    extract_marker_from_gp_xml xml_parse (files fs) gp_xml_file = inr markers ∧
    add_markers_to_ableton_project markers ableton_xml = (spliced_tree, inr tt) ∧
    replace_ableton_project gzip_compress xml_indent xml_write als_file spliced_tree fs
      = (fs', outcome).
Proof.
  unfold main. rewrite bind_run. unfold lift at 1.
  destruct (args_item "als_file") as [e|als_file] eqn:Hals;
    [intros [= <- <-]; left; eauto|].
  rewrite bind_run. unfold get_state at 1. rewrite bind_run. unfold lift at 1.
  destruct (extract_xml_from_ableton_project _ _ (files fs) als_file)
    as [e|ableton_xml] eqn:Hload; [intros [= <- <-]; left; eauto|].
  rewrite bind_run. unfold lift at 1.
  destruct (args_item "gp_xml_file") as [e|gp_xml_file] eqn:Hgp;
    [intros [= <- <-]; left; eauto|].
  rewrite bind_run. unfold get_state at 1. rewrite bind_run. unfold lift at 1.
  destruct (extract_marker_from_gp_xml _ (files fs) gp_xml_file)
    as [e|markers] eqn:Hmarkers; [intros [= <- <-]; left; eauto|].
  cbv zeta. rewrite bind_run. unfold lift at 1.
  destruct (add_markers_to_ableton_project markers ableton_xml)
    as [spliced_tree [e|[]]] eqn:Hsplice; cbn [fst snd];
    [intros [= <- <-]; left; eauto|].
  rewrite bind_run. unfold lift at 1.
  intros Hsave. right. by exists als_file, gp_xml_file, ableton_xml, markers, spliced_tree.
Qed.

Lemma script_saves_after_splicing_witness :
  ((main unframed framed (parsed_as sample_project) (parsed_as sample_score)
      not_reindented no_bytes sample_args disk_with_project).1 = disk_with_project ∧
   ∃ e, (main unframed framed (parsed_as sample_project) (parsed_as sample_score)
           not_reindented no_bytes sample_args disk_with_project).2 = inl e) ∨
  ∃ als_file gp_xml_file ableton_xml markers spliced_tree,
    sample_args "als_file" = inr als_file ∧
    sample_args "gp_xml_file" = inr gp_xml_file ∧
    extract_xml_from_ableton_project unframed (parsed_as sample_project)
      (files disk_with_project) als_file = inr ableton_xml ∧
    extract_marker_from_gp_xml (parsed_as sample_score) (files disk_with_project)
      gp_xml_file = inr markers ∧
    add_markers_to_ableton_project markers ableton_xml = (spliced_tree, inr tt) ∧
    replace_ableton_project framed not_reindented no_bytes als_file spliced_tree
      disk_with_project
      = (main unframed framed (parsed_as sample_project) (parsed_as sample_score)
           not_reindented no_bytes sample_args disk_with_project).
Proof.
  refine (script_saves_after_splicing unframed framed (parsed_as sample_project)
            (parsed_as sample_score) not_reindented no_bytes sample_args
            disk_with_project _ _ _).
  apply surjective_pairing.
Defined.

(** ** Numerals *)

Lemma digits_value_digit (c : ascii) (d acc : Z) (after_digit : bool) (cs : list ascii) :
  digit_of c = Some d →
  digits_value acc after_digit (c :: cs) = digits_value (10 * acc + d) true cs.
Proof. intros Hc. cbn [digits_value]. by rewrite Hc. Qed.

Lemma digits_value_of_uint_acc (d : Decimal.uint) (p : positive) (after_digit : bool) :
  d ≠ Decimal.Nil ∨ after_digit = true →
  digits_value (Z.pos p) after_digit (list_ascii_of_string (NilEmpty.string_of_uint d))
    = Some (Z.pos (Pos.of_uint_acc d p)).
Proof.
  revert p after_digit.
  induction d as [|d IH|d IH|d IH|d IH|d IH|d IH|d IH|d IH|d IH|d IH];
    intros p after_digit Hd;
    [by destruct Hd as [? | ->]|..];
    cbn [NilEmpty.string_of_uint list_ascii_of_string Pos.of_uint_acc];
    rewrite <- (IH _ true) by auto;
    (erewrite digits_value_digit by (vm_compute; reflexivity)); f_equal; lia.
Qed.

Lemma digits_value_of_uint (d : Decimal.uint) (after_digit : bool) :
  d ≠ Decimal.Nil ∨ after_digit = true →
  digits_value 0 after_digit (list_ascii_of_string (NilEmpty.string_of_uint d))
    = Some (Z.of_N (Pos.of_uint d)).
Proof.
  revert after_digit.
  induction d as [|d IH|d IH|d IH|d IH|d IH|d IH|d IH|d IH|d IH|d IH];
    intros after_digit Hd;
    [by destruct Hd as [? | ->]|..];
    cbn [NilEmpty.string_of_uint list_ascii_of_string Pos.of_uint];
    (erewrite digits_value_digit by (vm_compute; reflexivity));
    [apply IH; auto|..];
    apply (digits_value_of_uint_acc d _ true); auto.
Qed.

Lemma strip_without_spaces (cs : list ascii) :
  Forall (λ c, is_space c = false) cs → strip cs = cs.
Proof.
  assert (Hl : ∀ l, Forall (λ c, is_space c = false) l → lstrip l = l).
  { intros l Hcs. destruct Hcs as [|c l Hc _]; [done|]. cbn [lstrip]. by rewrite Hc. }
  intros Hcs. unfold strip. rewrite (Hl cs Hcs).
  rewrite Hl by (by apply Forall_reverse). apply reverse_involutive.
Qed.

Lemma uint_without_spaces (d : Decimal.uint) :
  Forall (λ c, is_space c = false) (list_ascii_of_string (NilEmpty.string_of_uint d)).
Proof.
  induction d; cbn [NilEmpty.string_of_uint list_ascii_of_string];
    constructor; done.
Qed.

Lemma signed_value_of_uint (d : Decimal.uint) :
  signed_value (list_ascii_of_string (NilEmpty.string_of_uint d))
    = digits_value 0 false (list_ascii_of_string (NilEmpty.string_of_uint d)).
Proof. by destruct d. Qed.

(** The numeral of a positive number has no more digits than the number
    allows: [10 ^ (digits - 1)] is at most the number. *)
Lemma digit_count_of_uint (d : Decimal.uint) :
  digit_count (list_ascii_of_string (NilEmpty.string_of_uint d)) = Decimal.nb_digits d.
Proof.
  unfold digit_count.
  induction d; cbn [NilEmpty.string_of_uint list_ascii_of_string Decimal.nb_digits];
    [done|..]; rewrite filter_cons_True by (by eexists); cbn [length]; by f_equal.
Qed.

Lemma of_uint_acc_lower (d : Decimal.uint) (acc : positive) :
  Z.pos acc * 10 ^ Z.of_nat (Decimal.nb_digits d) ≤ Z.pos (Pos.of_uint_acc d acc).
Proof.
  revert acc.
  induction d as [|d IH|d IH|d IH|d IH|d IH|d IH|d IH|d IH|d IH|d IH]; intros acc;
    cbn [Pos.of_uint_acc Decimal.nb_digits]; [cbn; lia|..];
    (etransitivity; [|apply IH]);
    rewrite Nat2Z.inj_succ, Z.pow_succ_r by lia;
    pose proof (Z.pow_pos_nonneg 10 (Z.of_nat (Decimal.nb_digits d)) ltac:(lia) ltac:(lia));
    nia.
Qed.

Lemma to_uint_leading_digit (p : positive) :
  Pos.to_uint p ≠ Decimal.Nil ∧ ∀ d, Pos.to_uint p ≠ Decimal.D0 d.
Proof.
  split; [apply DecimalPos.Unsigned.to_uint_nonnil|]. intros d Hd.
  pose proof (DecimalPos.Unsigned.to_of (Pos.to_uint p)) as Hnorm.
  rewrite DecimalPos.Unsigned.of_to in Hnorm. cbn [N.to_uint] in Hnorm.
  rewrite Hd in Hnorm. unfold Decimal.unorm in Hnorm.
  destruct (Decimal.nzhead (Decimal.D0 d)) as [|d'| | | | | | | | |] eqn:Hhead;
    try discriminate.
  - injection Hnorm as ->. by apply (DecimalPos.Unsigned.to_uint_nonzero p).
  - by apply DecimalFacts.nzhead_nonzero in Hhead.
Qed.

Lemma to_uint_lower (p : positive) :
  10 ^ (Z.of_nat (Decimal.nb_digits (Pos.to_uint p)) - 1) ≤ Z.pos p.
Proof.
  pose proof (DecimalPos.Unsigned.of_to p) as Hp.
  destruct (to_uint_leading_digit p) as [Hnil Hzero].
  destruct (Pos.to_uint p) as [|d|d|d|d|d|d|d|d|d|d];
    [done | by destruct (Hzero d) |..];
    cbn [Pos.of_uint Decimal.nb_digits] in *; injection Hp as <-;
    (etransitivity; [|apply of_uint_acc_lower]);
    rewrite Nat2Z.inj_succ;
    replace (Z.succ (Z.of_nat (Decimal.nb_digits d)) - 1)
      with (Z.of_nat (Decimal.nb_digits d)) by lia;
    pose proof (Z.pow_pos_nonneg 10 (Z.of_nat (Decimal.nb_digits d)) ltac:(lia) ltac:(lia));
    nia.
Qed.

Lemma digits_within_limit (p : positive) :
  within_str_digits (Z.pos p) →
  (Decimal.nb_digits (Pos.to_uint p) ≤ int_max_str_digits)%nat.
Proof.
  unfold within_str_digits. intros Hp.
  destruct (decide (Decimal.nb_digits (Pos.to_uint p) ≤ int_max_str_digits)%nat)
    as [|Hmore]; [done|]. exfalso.
  pose proof (to_uint_lower p) as Hlow.
  assert (10 ^ Z.of_nat int_max_str_digits
          ≤ 10 ^ (Z.of_nat (Decimal.nb_digits (Pos.to_uint p)) - 1))
    by (apply Z.pow_le_mono_r; lia).
  lia.
Qed.

(** [int(str(n))] is [n]: what lines 104 and 106 write as [Id] and [Time]
    is a numeral that [int] reads back. *)
Lemma py_int_str_of_int (n : Z) :
  within_str_digits n → py_int (Some (str_of_int n)) = inr n.
Proof.
  intros Hn.
  destruct n as [|p|p]; [vm_compute; reflexivity|..]; unfold py_int, str_of_int;
    cbn [Z.to_int NilZero.string_of_int];
    pose proof (DecimalPos.Unsigned.to_uint_nonnil p) as Hnil;
    pose proof (DecimalPos.Unsigned.of_to p) as Hp;
    pose proof (digits_within_limit p Hn) as Hlimit;
    assert (NilZero.string_of_uint (Pos.to_uint p)
              = NilEmpty.string_of_uint (Pos.to_uint p)) as ->
      by (by destruct (Pos.to_uint p)).
  - rewrite strip_without_spaces by apply uint_without_spaces. cbv zeta.
    rewrite signed_value_of_uint, digits_value_of_uint by auto.
    rewrite digit_count_of_uint, (proj2 (Nat.leb_le _ _) Hlimit). by rewrite Hp.
  - cbn [list_ascii_of_string].
    rewrite strip_without_spaces by (constructor; [done|apply uint_without_spaces]).
    cbv zeta. cbn [signed_value]. rewrite digits_value_of_uint by auto.
    unfold digit_count. rewrite filter_cons_False by (by intros [? [=]]).
    fold (digit_count (list_ascii_of_string (NilEmpty.string_of_uint (Pos.to_uint p)))).
    rewrite digit_count_of_uint, (proj2 (Nat.leb_le _ _) Hlimit). by rewrite Hp.
Qed.

Lemma lookup_expected_locators_inv (ms : list MarkerRecord) (bars : list Z)
    (n : nat) (entry : Element) :
  expected_locators ms bars !! n = Some entry →
  ∃ m b, ms !! n = Some m ∧ bars !! n = Some b ∧
    entry = locator_entry (Z.of_nat n + 1) ((b - 1) * 4) (format_value (marker m)).
Proof.
  unfold expected_locators. rewrite list_lookup_imap.
  intros ([m b] & Hzip & ->)%fmap_Some.
  apply lookup_zip_with_Some in Hzip as (m' & b' & [= <- <-] & Hm & Hb).
  by exists m, b.
Qed.

(** X12.  The numbers written by a successful call can be read back: in the
    collection created for records that the interpreter converts (as in C1:
    the bars are the integers [bars], and the number of records and the
    times are within the digit limit), the [Id] of the [n]-th entry (from 0)
    is a numeral that [int] reads as [n + 1], its [Time] child exists and
    its [Value] is a numeral that [int] reads as [(bar - 1) * 4], so that
    the bar of each record is recovered from the document; and no two
    entries have the same [Id]. *)
Theorem written_numbers_read_back (ms : list MarkerRecord) (bars : list Z)
    (root live_set : Element) :
  ms ≠ [] →
  find "LiveSet" root = Some live_set →
  is_Some (find "ViewStateSessionMixerHeight" live_set) →
  Forall2 (λ m b, py_int (bar m) = inr b) ms bars →
  within_str_digits (Z.of_nat (length ms)) →
  Forall (λ b, within_str_digits ((b - 1) * 4)) bars →
  ∃ root' live_set' collection entries,
    add_markers_to_ableton_project ms root = (root', inr tt) ∧
    find "LiveSet" root' = Some live_set' ∧
    find "Locators" live_set' = Some collection ∧
    last (children collection) = Some (Elem "Locators" [] None entries) ∧
    (∀ n b, bars !! n = Some b →
       ∃ entry time,
         entries !! n = Some entry ∧
         py_int (get "Id" (attrib entry)) = inr (Z.of_nat n + 1) ∧
         find "Time" entry = Some time ∧
         py_int (get "Value" (attrib time)) = inr ((b - 1) * 4)) ∧
    NoDup ((λ entry, get "Id" (attrib entry)) <$> entries).
Proof.
  intros Hms Hls Hanchor Hbars Hids Htimes.
  destruct (created_collection ms bars root live_set Hms Hls Hanchor Hbars Hids Htimes)
    as (root' & live_set' & collection & Hrun & Hls' & Hcoll & Hlast & Hlen & _).
  pose proof (Forall2_length _ _ _ Hbars) as Hlength.
  assert (Hid : ∀ n, (n < length ms)%nat → within_str_digits (Z.of_nat n + 1))
    by (intros n Hn; eapply within_str_digits_le; [|exact Hids]; lia).
  exists root', live_set', collection, (expected_locators ms bars).
  split_and!; try done.
  - intros n b Hb.
    pose proof (lookup_lt_Some _ _ _ Hb) as Hn.
    destruct (ms !! n) as [m|] eqn:Hm; [|apply lookup_ge_None in Hm; lia].
    eexists _, _. split; [by apply lookup_expected_locators|].
    split; [apply py_int_str_of_int, Hid; lia|].
    split; [reflexivity|]. apply py_int_str_of_int.
    rewrite Forall_forall in Htimes. apply Htimes. by eapply list_elem_of_lookup_2.
  - apply NoDup_alt. intros i j id.
    rewrite !list_lookup_fmap.
    intros (ei & (mi & bi & Hmi & _ & ->)%lookup_expected_locators_inv & Hi)%fmap_Some.
    intros (ej & (mj & bj & Hmj & _ & ->)%lookup_expected_locators_inv & Hj)%fmap_Some.
    change (id = Some (str_of_int (Z.of_nat i + 1))) in Hi.
    change (id = Some (str_of_int (Z.of_nat j + 1))) in Hj. subst id.
    apply lookup_lt_Some in Hmi, Hmj.
    apply (f_equal py_int) in Hj. rewrite !py_int_str_of_int in Hj by by apply Hid.
    injection Hj as Hj. lia.
Qed.

Lemma written_numbers_read_back_witness :
  ∃ root' live_set' collection entries,
    add_markers_to_ableton_project sample_markers sample_project = (root', inr tt) ∧
    find "LiveSet" root' = Some live_set' ∧
    find "Locators" live_set' = Some collection ∧
    last (children collection) = Some (Elem "Locators" [] None entries) ∧
    (∀ n b, [3; 5] !! n = Some b →
       ∃ entry time,
         entries !! n = Some entry ∧
         py_int (get "Id" (attrib entry)) = inr (Z.of_nat n + 1) ∧
         find "Time" entry = Some time ∧
         py_int (get "Value" (attrib time)) = inr ((b - 1) * 4)) ∧
    NoDup ((λ entry, get "Id" (attrib entry)) <$> entries).
Proof.
  apply (written_numbers_read_back sample_markers [3; 5] sample_project
           (Elem "LiveSet" [] None
              [ leaf "Tracks"; leaf "ViewStateSessionMixerHeight"; leaf "SomeOtherNode" ])).
  - done.
  - reflexivity.
  - by eexists.
  - repeat constructor.
  - vm_compute. reflexivity.
  - repeat constructor; vm_compute; reflexivity.
Defined.
